(** * SecureShare: slot storage and request handlers

    A shallow embedding of [server/storage.ts] (class [SqliteStorage]) and
    [server/routes.ts] (the five Express handlers and the hourly cleanup
    job), together with the properties of the lockout counter, the
    expiration policy and cascading deletion.  The state logic of two
    client components, [CountdownTimer] and [FileUploadZone], is embedded
    beside them.

    Modelling conventions.
    - The three SQLite tables are lists of rows, in insertion order; the
      SQL statements of the source become [find], [filter] and [map] on
      them.  PRIMARY KEY and FOREIGN KEY violations make the statement
      throw, as better-sqlite3 does (it enables foreign keys by default,
      which is also what makes ON DELETE CASCADE effective).
    - The uploads directory is a finite set of paths.
    - [Date.now()], [Math.random()], [randomBytes] and the argon2 salt are
      readings of the environment and are passed in explicitly.  Numbers
      are exact: integers are [Z], readings of [Math.random()] are [Q] and
      their products are not rounded.
    - [argon2.hash], [argon2.verify] and [String.prototype.trim] are
      library functions; the development is parametric in them.
    - A JavaScript string is held as the bytes of its UTF-8 encoding.  Its
      [length] property counts UTF-16 code units, not bytes, and is
      computed from the bytes by [utf16_length].
    - Handlers run one at a time: a handler is a state transformer that
      returns, throws, or starves when the readings of [Math.random()] it
      was given run out.  A request that the rate limiter or [multer]
      turns away never reaches a handler and is not an event here. *)

From Stdlib Require Import ZArith QArith Qround Ascii String DecimalString List Lia.
From Stdlib Require Import Qminmax.
From stdpp Require Import gmap strings list.
Import ListNotations.
#[local] Set Warnings "-clear-no-such-hyp".
Open Scope string_scope.
Open Scope Z_scope.

(** ** Data model ([shared/schema.ts]) *)

Module Slot.
Record t := mk {
  id : string;
  passwordHash : string;
  createdAt : Z;
  expiresAt : Z;
  failedAttempts : Z }.
End Slot.

Module File.
Record t := mk {
  id : string;
  slotId : string;
  filename : string;
  originalName : string;
  size : Z;
  mimeType : option string;
  uploadedAt : Z }.
End File.

Module TextContent.
Record t := mk {
  slotId : string;
  content : string }.
End TextContent.

Module PublicSlot.
Record t := mk {
  id : string;
  createdAt : Z;
  expiresAt : Z }.
End PublicSlot.

(** [sanitizeSlot] of routes.ts: a new object with exactly three fields. *)
Definition sanitizeSlot (slot : Slot.t) : PublicSlot.t :=
  {| PublicSlot.id := Slot.id slot;
     PublicSlot.createdAt := Slot.createdAt slot;
     PublicSlot.expiresAt := Slot.expiresAt slot |}.

(** ** JSON values, as written by [res.json] *)

#[local] Unset Elimination Schemes.
Inductive json :=
| JNull
| JBool (b : bool)
| JNum (n : Z)
| JStr (s : string)
| JArr (items : list json)
| JObj (fields : list (string * json)).
#[local] Set Elimination Schemes.

(** Every field name occurring in a JSON value, at any depth. *)
Fixpoint json_keys (j : json) : list string :=
  match j with
  | JArr items => flat_map json_keys items
  | JObj fields => flat_map (fun kv => fst kv :: json_keys (snd kv)) fields
  | _ => []
  end.

Definition json_of_option {A} (f : A -> json) (o : option A) : json :=
  match o with
  | Some a => f a
  | None => JNull
  end.

Definition json_of_PublicSlot (p : PublicSlot.t) : json :=
  JObj [("id", JStr (PublicSlot.id p));
        ("createdAt", JNum (PublicSlot.createdAt p));
        ("expiresAt", JNum (PublicSlot.expiresAt p))].

(** A row of the [files] table, all seven columns. *)
Definition json_of_File (f : File.t) : json :=
  JObj [("id", JStr (File.id f));
        ("slotId", JStr (File.slotId f));
        ("filename", JStr (File.filename f));
        ("originalName", JStr (File.originalName f));
        ("size", JNum (File.size f));
        ("mimeType", json_of_option JStr (File.mimeType f));
        ("uploadedAt", JNum (File.uploadedAt f))].

Definition json_of_TextContent (t : TextContent.t) : json :=
  JObj [("slotId", JStr (TextContent.slotId t));
        ("content", JStr (TextContent.content t))].

(** ** HTTP responses *)

Inductive Body :=
| JsonBody (j : json)
| DownloadBody (filePath originalName : string).

Record Response := mkResponse {
  status : Z;
  body : Body }.

(** [res.status(code).json({ error })] *)
Definition error_response (code : Z) (message : string) : Response :=
  {| status := code; body := JsonBody (JObj [("error", JStr message)]) |}.

(** [res.json(value)], status 200 *)
Definition json_response (j : json) : Response :=
  {| status := 200; body := JsonBody j |}.

Definition success_response : Response :=
  json_response (JObj [("success", JBool true)]).

Definition body_keys (r : Response) : list string :=
  match body r with
  | JsonBody j => json_keys j
  | DownloadBody _ _ => []
  end.

(** Number to string conversion of template literals and [+=]. *)
Definition string_of_Z (z : Z) : string := NilZero.string_of_int (Z.to_int z).

(** The UTF-16 code units that a byte of a UTF-8 string stands for: a
    continuation byte [10xxxxxx] adds nothing to the character it belongs
    to, a lead byte [11110xxx] opens a character beyond U+FFFF, which
    JavaScript holds as a surrogate pair, and every other byte opens a
    character of one unit. *)
Definition utf16_units (c : ascii) : nat :=
  let n := N_of_ascii c in
  if N.leb 128 n && N.ltb n 192 then 0%nat
  else if N.leb 240 n then 2%nat
  else 1%nat.

(** The [length] property of a string. *)
Fixpoint utf16_length (s : string) : nat :=
  match s with
  | EmptyString => 0%nat
  | String c rest => (utf16_units c + utf16_length rest)%nat
  end.

(** ** The server state *)

Record World := mkWorld {
  slots : list Slot.t;
  files : list File.t;
  text_contents : list TextContent.t;
  uploads : gset string }.

Definition initial_world : World :=
  {| slots := []; files := []; text_contents := []; uploads := ∅ |}.

Definition UPLOADS_DIR : string := "uploads".

(** [path.join(UPLOADS_DIR, name)] for a stored file name. *)
Definition path_join (dir name : string) : string := dir +:+ "/" +:+ name.

(** ** A small state monad with exceptions *)

Inductive outcome (A : Type) :=
| Returned (a : A)
| Thrown
| Starved.
Arguments Returned {A} a.
Arguments Thrown {A}.
Arguments Starved {A}.

Definition M (A : Type) : Type := World -> outcome A * World.

Definition ret {A} (a : A) : M A := fun w => (Returned a, w).

Definition bind {A B} (c : M A) (k : A -> M B) : M B :=
  fun w =>
    match c w with
    | (Returned a, w') => k a w'
    | (Thrown, w') => (Thrown, w')
    | (Starved, w') => (Starved, w')
    end.

Declare Scope handler_scope.
Delimit Scope handler_scope with M.
Bind Scope handler_scope with M.
Notation "x <- c ;; k" := (bind c (fun x => k))
  (at level 100, c at next level, k at level 200, right associativity)
  : handler_scope.
Notation "c ;; k" := (bind c (fun _ => k))
  (at level 100, k at level 200, right associativity) : handler_scope.
Open Scope handler_scope.

(** [try { c } catch (error) { handler }]: the state reached at the throw
    is kept. *)
Definition try_catch {A} (c handler : M A) : M A :=
  fun w =>
    match c w with
    | (Thrown, w') => handler w'
    | r => r
    end.

(** [for (const x of xs) { await body(x) }] *)
Fixpoint for_each {A} (xs : list A) (body : A -> M unit) : M unit :=
  match xs with
  | [] => ret tt
  | x :: xs' => body x ;; for_each xs' body
  end.

Definition world_of {A} (r : outcome A * World) : World := snd r.
Definition result_of {A} (r : outcome A * World) : outcome A := fst r.

(** ** The file system calls used by the source *)

Definition existsSync (filePath : string) : M bool :=
  fun w => (Returned (bool_decide (filePath ∈ uploads w)), w).

(** [fs.unlinkSync] throws ENOENT on a path that does not exist. *)
Definition unlinkSync (filePath : string) : M unit :=
  fun w =>
    if bool_decide (filePath ∈ uploads w)
    then (Returned tt,
          {| slots := slots w; files := files w;
             text_contents := text_contents w;
             uploads := uploads w ∖ {[filePath]} |})
    else (Thrown, w).

(** ** Random identifiers ([SqliteStorage.generateSlotId]) *)

(** [Math.floor(r * n)] for a reading [r] of [Math.random()]. *)
Definition random_below (r : Q) (n : Z) : Z := Qfloor (r * inject_Z n).

(** The body of the [for] loop: [id += Math.floor(Math.random() * 10)],
    [length] times.  [None] when the tape of readings runs out. *)
Fixpoint append_digits (length : nat) (id : string) (tape : list Q)
  : option (string * list Q) :=
  match length with
  | O => Some (id, tape)
  | S length' =>
      match tape with
      | [] => None
      | r :: tape' =>
          append_digits length' (id +:+ string_of_Z (random_below r 10)) tape'
      end
  end.

Definition generateSlotId (tape : list Q) : option (string * list Q) :=
  match tape with
  | [] => None
  | r :: tape' =>
      let length := random_below r 3 + 6 in
      append_digits (Z.to_nat length) "" tape'
  end.

(** [SELECT ... FROM slots WHERE id = ?] with [.get] *)
Definition select_slot (slotId : string) (rows : list Slot.t) : option Slot.t :=
  List.find (fun row => String.eqb (Slot.id row) slotId) rows.

(** The [while] loop of [createSlot]: draw identifiers until one is not
    the id of a stored slot.  Each draw consumes at least one reading, so
    [fuel] equal to the length of the tape never runs out first. *)
Fixpoint freshSlotId (fuel : nat) (rows : list Slot.t) (tape : list Q)
  : option string :=
  match fuel with
  | O => None
  | S fuel' =>
      match generateSlotId tape with
      | None => None
      | Some (slotId, tape') =>
          match select_slot slotId rows with
          | Some _ => freshSlotId fuel' rows tape'
          | None => Some slotId
          end
      end
  end.

(** A file as [multer] hands it to the upload handler. *)
Module MulterFile.
Record t := mk {
  filename : string;
  originalname : string;
  size : Z;
  mimetype : string }.
End MulterFile.

Section Server.

#[local] Set Default Proof Using "Type".

(** ** The storage layer ([SqliteStorage]) *)

(** [argon2.hash(password)] with the salt it drew. *)
Variable argon2_hash : string -> string -> string.
(** [argon2.verify(hash, password)]; [None] when it throws. *)
Variable argon2_verify : string -> string -> option bool.

Definition set_slots (rows : list Slot.t) (w : World) : World :=
  {| slots := rows; files := files w;
     text_contents := text_contents w; uploads := uploads w |}.

Definition set_files (rows : list File.t) (w : World) : World :=
  {| slots := slots w; files := rows;
     text_contents := text_contents w; uploads := uploads w |}.

Definition set_text_contents (rows : list TextContent.t) (w : World) : World :=
  {| slots := slots w; files := files w;
     text_contents := rows; uploads := uploads w |}.

(** [INSERT INTO slots ...]: [id] is the primary key. *)
Definition insert_slot (slot : Slot.t) : M unit :=
  fun w =>
    match select_slot (Slot.id slot) (slots w) with
    | Some _ => (Thrown, w)
    | None => (Returned tt, set_slots (slots w ++ [slot]) w)
    end.

(** [createSlot].  [tape] holds the readings of [Math.random()], [salt]
    the salt of [argon2.hash] and [now] the reading of [Date.now()]. *)
Definition createSlot (tape : list Q) (salt : string) (now : Z)
  (password : string) : M Slot.t :=
  fun w =>
    match freshSlotId (List.length tape) (slots w) tape with
    | None => (Starved, w)
    | Some slotId =>
        let passwordHash := argon2_hash password salt in
        let createdAt := now in
        let expiresAt := createdAt + 24 * 60 * 60 * 1000 in
        let slot :=
          {| Slot.id := slotId;
             Slot.passwordHash := passwordHash;
             Slot.createdAt := createdAt;
             Slot.expiresAt := expiresAt;
             Slot.failedAttempts := 0 |} in
        (insert_slot slot ;; ret slot) w
    end.

Definition getSlot (slotId : string) : M (option Slot.t) :=
  fun w => (Returned (select_slot slotId (slots w)), w).

(** The [try]/[catch] around [argon2.verify] turns a throw into [false]. *)
Definition verifySlotPassword (slotId password : string) : M bool :=
  slot <- getSlot slotId ;;
  match slot with
  | None => ret false
  | Some slot =>
      match argon2_verify (Slot.passwordHash slot) password with
      | Some valid => ret valid
      | None => ret false
      end
  end.

(** The SET clause of the UPDATE below, applied to one row. *)
Definition bump (slotId : string) (row : Slot.t) : Slot.t :=
  if String.eqb (Slot.id row) slotId
  then {| Slot.id := Slot.id row;
          Slot.passwordHash := Slot.passwordHash row;
          Slot.createdAt := Slot.createdAt row;
          Slot.expiresAt := Slot.expiresAt row;
          Slot.failedAttempts := Slot.failedAttempts row + 1 |}
  else row.

(** [UPDATE slots SET failedAttempts = failedAttempts + 1 WHERE id = ?] *)
Definition update_failedAttempts (slotId : string) : M unit :=
  fun w => (Returned tt, set_slots (List.map (bump slotId) (slots w)) w).

(** [slot?.failedAttempts || 0] *)
Definition failedAttempts_or_0 (slot : option Slot.t) : Z :=
  match slot with
  | Some slot =>
      if Z.eqb (Slot.failedAttempts slot) 0 then 0
      else Slot.failedAttempts slot
  | None => 0
  end.

Definition incrementFailedAttempts (slotId : string) : M Z :=
  update_failedAttempts slotId ;;
  slot <- getSlot slotId ;;
  ret (failedAttempts_or_0 slot).

Definition select_file (fileId : string) (rows : list File.t) : option File.t :=
  List.find (fun row => String.eqb (File.id row) fileId) rows.

Definition select_files (slotId : string) (rows : list File.t) : list File.t :=
  List.filter (fun row => String.eqb (File.slotId row) slotId) rows.

Definition select_text (slotId : string) (rows : list TextContent.t)
  : option TextContent.t :=
  List.find (fun row => String.eqb (TextContent.slotId row) slotId) rows.

(** [INSERT INTO files ...]: [id] is the primary key and [slotId]
    references [slots (id)]. *)
Definition addFile (file : File.t) : M unit :=
  fun w =>
    match select_file (File.id file) (files w),
          select_slot (File.slotId file) (slots w) with
    | None, Some _ => (Returned tt, set_files (files w ++ [file]) w)
    | _, _ => (Thrown, w)
    end.

Definition getFiles (slotId : string) : M (list File.t) :=
  fun w => (Returned (select_files slotId (files w)), w).

Definition getFile (fileId : string) : M (option File.t) :=
  fun w => (Returned (select_file fileId (files w)), w).

(** [INSERT OR REPLACE INTO text_contents ...]: the row with the same
    [slotId], if any, is removed first; [slotId] references [slots (id)]. *)
Definition addTextContent (textContent : TextContent.t) : M unit :=
  fun w =>
    match select_slot (TextContent.slotId textContent) (slots w) with
    | Some _ =>
        (Returned tt,
         set_text_contents
           (List.filter
              (fun row => negb (String.eqb (TextContent.slotId row)
                                           (TextContent.slotId textContent)))
              (text_contents w) ++ [textContent]) w)
    | None => (Thrown, w)
    end.

Definition getTextContent (slotId : string) : M (option TextContent.t) :=
  fun w => (Returned (select_text slotId (text_contents w)), w).

(** [DELETE FROM slots WHERE id = ?], with the two ON DELETE CASCADE
    foreign keys of [files] and [text_contents]. *)
Definition delete_slot_row (slotId : string) : M unit :=
  fun w =>
    (Returned tt,
     {| slots :=
          List.filter (fun row => negb (String.eqb (Slot.id row) slotId))
                      (slots w);
        files :=
          List.filter (fun row => negb (String.eqb (File.slotId row) slotId))
                      (files w);
        text_contents :=
          List.filter
            (fun row => negb (String.eqb (TextContent.slotId row) slotId))
            (text_contents w);
        uploads := uploads w |}).

Definition unlink_if_exists (file : File.t) : M unit :=
  let filePath := path_join UPLOADS_DIR (File.filename file) in
  present <- existsSync filePath ;;
  if present then unlinkSync filePath else ret tt.

Definition deleteSlot (slotId : string) : M unit :=
  files <- getFiles slotId ;;
  for_each files unlink_if_exists ;;
  delete_slot_row slotId.

(** [SELECT * FROM slots WHERE expiresAt <= ?] at [now = Date.now()]. *)
Definition getExpiredSlots (now : Z) : M (list Slot.t) :=
  fun w =>
    (Returned (List.filter (fun row => Slot.expiresAt row <=? now) (slots w)),
     w).

Definition deleteExpiredSlots (now : Z) : M unit :=
  expiredSlots <- getExpiredSlots now ;;
  for_each expiredSlots (fun slot => deleteSlot (Slot.id slot)).

(** ** The routes ([registerRoutes]) *)

(** [String.prototype.trim] *)
Variable trim : string -> string.

(** JavaScript truthiness of a string. *)
Definition truthy (s : string) : bool := negb (String.eqb s "").

(** POST /api/slot *)
Definition post_slot (tape : list Q) (salt : string) (now : Z)
  (password : string) : M Response :=
  try_catch
    (if negb (truthy password) || (Z.of_nat (utf16_length password) <? 4)
     then ret (error_response 400 "Password must be at least 4 characters")
     else
       slot <- createSlot tape salt now password ;;
       ret (json_response
              (JObj [("slotId", JStr (Slot.id slot));
                     ("expiresAt", JNum (Slot.expiresAt slot))])))
    (ret (error_response 500 "Failed to create slot")).

(** The record built in the loop of the upload handler; [id] is the
    reading of [randomBytes(16)] and [uploadedAt] that of [Date.now()]. *)
Definition file_record (slotId : string)
  (upload : MulterFile.t * string * Z) : File.t :=
  let '(file, id, uploadedAt) := upload in
  {| File.id := id;
     File.slotId := slotId;
     File.filename := MulterFile.filename file;
     File.originalName := MulterFile.originalname file;
     File.size := MulterFile.size file;
     File.mimeType := Some (MulterFile.mimetype file);
     File.uploadedAt := uploadedAt |}.

(** [text && text.trim()] *)
Definition has_text (text : option string) : bool :=
  match text with
  | Some text => truthy text && truthy (trim text)
  | None => false
  end.

(** The handler of POST /api/upload/:slotId *)
Definition post_upload (now : Z) (slotId password : string)
  (text : option string) (uploaded : list (MulterFile.t * string * Z))
  : M Response :=
  try_catch
    (slot <- getSlot slotId ;;
     match slot with
     | None => ret (error_response 404 "Slot not found")
     | Some slot =>
         if now >? Slot.expiresAt slot
         then
           deleteSlot slotId ;;
           ret (error_response 410 "Slot has expired")
         else
           isValid <- verifySlotPassword slotId password ;;
           if negb isValid
           then ret (error_response 401 "Invalid password")
           else
             for_each uploaded
                      (fun upload => addFile (file_record slotId upload)) ;;
             (if has_text text
              then addTextContent
                     {| TextContent.slotId := slotId;
                        TextContent.content := default "" text |}
              else ret tt) ;;
             ret success_response
     end)
    (ret (error_response 500 "Failed to upload files")).

(** The [multer] disk storage in front of the upload handler: every file
    of the request is written to the uploads directory before the handler
    runs. *)
Definition multer_store (uploaded : list (MulterFile.t * string * Z)) : M unit :=
  fun w =>
    (Returned tt,
     {| slots := slots w; files := files w;
        text_contents := text_contents w;
        uploads :=
          uploads w ∪
          list_to_set
            (List.map (fun upload =>
                         path_join UPLOADS_DIR
                                   (MulterFile.filename (fst (fst upload))))
                      uploaded) |}).

Definition upload_route (now : Z) (slotId password : string)
  (text : option string) (uploaded : list (MulterFile.t * string * Z))
  : M Response :=
  multer_store uploaded ;;
  post_upload now slotId password text uploaded.

(** The [AccessSlotResponse] as [res.json] writes it.  [getTextContent]
    yields [undefined] when the slot has no text row ([.get] of
    better-sqlite3), and a field whose value is [undefined] is left out by
    [JSON.stringify]. *)
Definition access_body (slot : Slot.t) (files : list File.t)
  (textContent : option TextContent.t) : json :=
  JObj ([("slot", json_of_PublicSlot (sanitizeSlot slot));
         ("files", JArr (List.map json_of_File files))]
        ++ match textContent with
           | Some textContent =>
               [("textContent", json_of_TextContent textContent)]
           | None => []
           end).

(** POST /api/slot/:slotId *)
Definition post_access (now : Z) (slotId password : string) : M Response :=
  try_catch
    (slot <- getSlot slotId ;;
     match slot with
     | None => ret (error_response 404 "Slot not found")
     | Some slot =>
         if now >? Slot.expiresAt slot
         then
           deleteSlot slotId ;;
           ret (error_response 410 "Slot has expired")
         else
           isValid <- verifySlotPassword slotId password ;;
           if negb isValid
           then
             failedAttempts <- incrementFailedAttempts slotId ;;
             let remainingAttempts := 3 - failedAttempts in
             if remainingAttempts <=? 0
             then
               deleteSlot slotId ;;
               ret (error_response 403 "Too many failed attempts. Slot deleted.")
             else
               ret (error_response 401
                      ("Invalid password. " +:+ string_of_Z remainingAttempts
                       +:+ " attempts remaining."))
           else
             files <- getFiles slotId ;;
             textContent <- getTextContent slotId ;;
             ret (json_response (access_body slot files textContent))
     end)
    (ret (error_response 500 "Failed to access slot")).

(** GET /api/download/:slotId/:fileId *)
Definition get_download (now : Z) (slotId fileId password : string)
  : M Response :=
  try_catch
    (slot <- getSlot slotId ;;
     match slot with
     | None => ret (error_response 404 "Slot not found")
     | Some slot =>
         if now >? Slot.expiresAt slot
         then
           deleteSlot slotId ;;
           ret (error_response 410 "Slot has expired")
         else
           isValid <- verifySlotPassword slotId password ;;
           if negb isValid
           then ret (error_response 401 "Invalid password")
           else
             file <- getFile fileId ;;
             match file with
             | None => ret (error_response 404 "File not found")
             | Some file =>
                 if negb (String.eqb (File.slotId file) slotId)
                 then ret (error_response 404 "File not found")
                 else
                   let filePath := path_join UPLOADS_DIR (File.filename file) in
                   present <- existsSync filePath ;;
                   if negb present
                   then ret (error_response 404 "File not found on disk")
                   else ret {| status := 200;
                               body := DownloadBody filePath
                                         (File.originalName file) |}
             end
     end)
    (ret (error_response 500 "Failed to download file")).

(** DELETE /api/slot/:slotId *)
Definition delete_slot (now : Z) (slotId password : string) : M Response :=
  try_catch
    (slot <- getSlot slotId ;;
     match slot with
     | None => ret (error_response 404 "Slot not found")
     | Some slot =>
         if now >? Slot.expiresAt slot
         then
           deleteSlot slotId ;;
           ret (error_response 410 "Slot has expired")
         else
           isValid <- verifySlotPassword slotId password ;;
           if negb isValid
           then ret (error_response 401 "Invalid password")
           else
             deleteSlot slotId ;;
             ret success_response
     end)
    (ret (error_response 500 "Failed to delete slot")).

(** The hourly [cron] job; a failure is logged and swallowed. *)
Definition cleanup_job (now : Z) : M unit :=
  try_catch (deleteExpiredSlots now) (ret tt).

(** ** Requests and runs of the server *)

Inductive Request :=
| CreateSlot (tape : list Q) (salt password : string)
| Upload (slotId password : string) (text : option string)
         (uploaded : list (MulterFile.t * string * Z))
| Access (slotId password : string)
| Download (slotId fileId password : string)
| DeleteSlot (slotId password : string)
| Cleanup.

(** The slot a request addresses through its [:slotId] parameter. *)
Definition target (req : Request) : option string :=
  match req with
  | Upload slotId _ _ _ => Some slotId
  | Access slotId _ => Some slotId
  | Download slotId _ _ => Some slotId
  | DeleteSlot slotId _ => Some slotId
  | CreateSlot _ _ _ | Cleanup => None
  end.

(** One event of the server at time [now]; the cleanup job answers
    nobody. *)
Definition handle (now : Z) (req : Request) : M (option Response) :=
  match req with
  | CreateSlot tape salt password =>
      r <- post_slot tape salt now password ;; ret (Some r)
  | Upload slotId password text uploaded =>
      r <- upload_route now slotId password text uploaded ;; ret (Some r)
  | Access slotId password =>
      r <- post_access now slotId password ;; ret (Some r)
  | Download slotId fileId password =>
      r <- get_download now slotId fileId password ;; ret (Some r)
  | DeleteSlot slotId password =>
      r <- delete_slot now slotId password ;; ret (Some r)
  | Cleanup => cleanup_job now ;; ret None
  end.

(** A run: the events are handled one after the other. *)
Fixpoint run (events : list (Z * Request)) (w : World)
  : list (outcome (option Response)) * World :=
  match events with
  | [] => ([], w)
  | (now, req) :: events' =>
      let '(r, w') := handle now req w in
      let '(rs, w'') := run events' w' in
      (r :: rs, w'')
  end.

(** The identifier announced by a creation response. *)
Definition issued_slotId (r : outcome (option Response)) : option string :=
  match r with
  | Returned (Some {| body := JsonBody (JObj (("slotId", JStr slotId) :: _)) |}) =>
      Some slotId
  | _ => None
  end.

(** ** Closed forms used in the statements *)

(** The verdict of [verifySlotPassword] on a stored slot. *)
Definition valid_password (slot : Slot.t) (password : string) : bool :=
  match argon2_verify (Slot.passwordHash slot) password with
  | Some valid => valid
  | None => false
  end.

Definition file_path (file : File.t) : string :=
  path_join UPLOADS_DIR (File.filename file).

(** The world once slot [slotId], its rows and the blobs of its file
    records are gone; [deleteSlot_purge] shows it is what [deleteSlot]
    computes. *)
Definition purge (slotId : string) (w : World) : World :=
  {| slots :=
       List.filter (fun row => negb (String.eqb (Slot.id row) slotId))
                   (slots w);
     files :=
       List.filter (fun row => negb (String.eqb (File.slotId row) slotId))
                   (files w);
     text_contents :=
       List.filter
         (fun row => negb (String.eqb (TextContent.slotId row) slotId))
         (text_contents w);
     uploads :=
       uploads w ∖ list_to_set (List.map file_path
                                         (select_files slotId (files w))) |}.

(** The slot table after the UPDATE of [incrementFailedAttempts]. *)
Definition counted (slotId : string) (w : World) : World :=
  set_slots (List.map (bump slotId) (slots w)) w.

(** What the request has written before its handler starts. *)
Definition received (req : Request) (w : World) : World :=
  match req with
  | Upload _ _ _ uploaded => world_of (multer_store uploaded w)
  | _ => w
  end.

Definition not_found : Response := error_response 404 "Slot not found".
Definition expired : Response := error_response 410 "Slot has expired".
Definition locked_out : Response :=
  error_response 403 "Too many failed attempts. Slot deleted.".

(** The body of a creation response. *)
Definition created (slot : Slot.t) : Response :=
  json_response (JObj [("slotId", JStr (Slot.id slot));
                       ("expiresAt", JNum (Slot.expiresAt slot))]).

(** No creation in the run announces [slotId]. *)
Definition never_reissued (slotId : string) (events : list (Z * Request))
  (w : World) : Prop :=
  Forall (fun r => issued_slotId r ≠ Some slotId) (fst (run events w)).

(** Every request of the run that addresses [slotId] is answered 404. *)
Definition not_found_throughout (slotId : string)
  (events : list (Z * Request)) (w : World) : Prop :=
  ∀ (n : nat) now req r,
    events !! n = Some (now, req) →
    fst (run events w) !! n = Some r →
    target req = Some slotId →
    r = Returned (Some not_found).

Definition is_digit (c : ascii) : bool :=
  (Ascii.leb "0" c && Ascii.leb c "9")%char.

Definition all_digits (s : string) : bool :=
  forallb is_digit (list_ascii_of_string s).

(** A reading of [Math.random()] lies in [0, 1). *)
Definition unit_interval (r : Q) : Prop := (0 <= r)%Q ∧ (r < 1)%Q.

(** ** Predicates on tables, computations and responses *)

(** Every row of [rows'] is a row of [rows], unchanged. *)
Definition keeps_or_drops (rows rows' : list Slot.t) : Prop :=
  ∀ slotId,
    select_slot slotId rows' = None ∨
    select_slot slotId rows' = select_slot slotId rows.

(** A computation under which the slot table only keeps or drops rows. *)
Definition evolves {A} (c : M A) : Prop :=
  ∀ w, keeps_or_drops (slots w) (slots (world_of (c w))).

(** The world after the loop of [deleteExpiredSlots] over [rows]. *)
Definition purge_all (rows : list Slot.t) (w : World) : World :=
  fold_left (fun w slot => purge (Slot.id slot) w) rows w.

(** The lockout counter of every stored slot is 0, 1 or 2. *)
Definition attempts_in_range (rows : list Slot.t) : Prop :=
  ∀ slotId slot,
    select_slot slotId rows = Some slot →
    0 <= Slot.failedAttempts slot <= 2.

(** The five shapes a response of the routes can have, and computations
    all of whose answers satisfy [P]. *)
Inductive wire_format : Response → Prop :=
| wire_error code message : wire_format (error_response code message)
| wire_success : wire_format success_response
| wire_created slot : wire_format (created slot)
| wire_access slot files textContent :
    wire_format (json_response (access_body slot files textContent))
| wire_download filePath originalName :
    wire_format {| status := 200; body := DownloadBody filePath originalName |}.

Definition answers (P : Response → Prop) (c : M Response) : Prop :=
  ∀ w r, result_of (c w) = Returned r → P r.

(** ** Sample data

    Transparent stand-ins for the library functions (the hash of a
    password is the password, [trim] is the identity) and a small store,
    on which the model is run in the worked instances at the end. *)

Definition plain_hash (password salt : string) : string := password.

Definition plain_verify (hash password : string) : option bool :=
  Some (String.eqb hash password).

Definition no_trim (s : string) : string := s.

(** A slot with password "abcd", one file and a text, after [failed]
    counted failures. *)
Definition slot_a (failed : Z) : Slot.t :=
  {| Slot.id := "1234590";
     Slot.passwordHash := "abcd";
     Slot.createdAt := 1000;
     Slot.expiresAt := 86401000;
     Slot.failedAttempts := failed |}.

Definition file_a : File.t :=
  {| File.id := "f1";
     File.slotId := "1234590";
     File.filename := "1001-aa.txt";
     File.originalName := "notes.txt";
     File.size := 3;
     File.mimeType := Some "text/plain";
     File.uploadedAt := 1002 |}.

Definition text_a : TextContent.t :=
  {| TextContent.slotId := "1234590"; TextContent.content := "hi" |}.

Definition world_a (failed : Z) : World :=
  {| slots := [slot_a failed];
     files := [file_a];
     text_contents := [text_a];
     uploads := {[ "uploads/1001-aa.txt" ]} |}.

(** Readings of [Math.random()] that spell the identifier 1234590. *)
Definition tape_a : list Q :=
  [1 # 2; 1 # 10; 2 # 10; 3 # 10; 45 # 100; 5 # 10; 99 # 100; 0; 7 # 10]%Q.

(** Readings that first spell 1234590 again and then, from the reading
    [tape_a] leaves over, the identifier 11223344. *)
Definition tape_retry : list Q :=
  (tape_a ++ [1 # 10; 1 # 10; 2 # 10; 2 # 10;
              3 # 10; 3 # 10; 4 # 10; 4 # 10]%Q)%list.

(** The upload that makes [file_a], and a second one. *)
Definition upload_a : MulterFile.t * string * Z :=
  ({| MulterFile.filename := "1001-aa.txt";
      MulterFile.originalname := "notes.txt";
      MulterFile.size := 3;
      MulterFile.mimetype := "text/plain" |}, "f1", 1002).

Definition upload_b : MulterFile.t * string * Z :=
  ({| MulterFile.filename := "1003-bb.png";
      MulterFile.originalname := "photo.png";
      MulterFile.size := 7;
      MulterFile.mimetype := "image/png" |}, "f2", 1004).

(** A run from the empty store: a creation, an upload and one wrong
    password. *)
Definition events_a : list (Z * Request) :=
  [(1000, CreateSlot tape_a "salt" "abcd");
   (1001, Upload "1234590" "abcd" (Some "hi") [upload_a]);
   (1500, Access "1234590" "nope")].

(** A second slot beside [slot_a]. *)
Definition slot_b : Slot.t :=
  {| Slot.id := "7654321";
     Slot.passwordHash := "wxyz";
     Slot.createdAt := 5000;
     Slot.expiresAt := 86405000;
     Slot.failedAttempts := 1 |}.

Definition world_ab : World :=
  {| slots := [slot_a 0; slot_b];
     files := [file_a];
     text_contents := [text_a];
     uploads := {[ "uploads/1001-aa.txt" ]} |}.

(** ** Invariants of the store *)

(** The three primary keys: [slots (id)], [files (id)] and
    [text_contents (slotId)]. *)
Definition keys_unique (w : World) : Prop :=
  List.NoDup (List.map Slot.id (slots w)) ∧
  List.NoDup (List.map File.id (files w)) ∧
  List.NoDup (List.map TextContent.slotId (text_contents w)).

(** The two foreign keys: every file row and every text row names a
    stored slot. *)
Definition references_resolve (w : World) : Prop :=
  (∀ file, In file (files w) →
           select_slot (File.slotId file) (slots w) ≠ None) ∧
  (∀ text, In text (text_contents w) →
           select_slot (TextContent.slotId text) (slots w) ≠ None).

(** Every stored slot expires 24 hours after its creation. *)
Definition lifetimes_fixed (w : World) : Prop :=
  ∀ slot, In slot (slots w) →
          Slot.expiresAt slot = Slot.createdAt slot + 86400000.

Definition store_invariant (w : World) : Prop :=
  keys_unique w ∧ references_resolve w ∧ lifetimes_fixed w.

(** A computation that keeps [I], however it ends. *)
Definition preserves {A} (I : World → Prop) (c : M A) : Prop :=
  ∀ w, I w → I (world_of (c w)).

(** The records of slot [slotId] are in [w] what they are in [w0]. *)
Definition same_records (slotId : string) (w0 w : World) : Prop :=
  select_slot slotId (slots w) = select_slot slotId (slots w0) ∧
  select_files slotId (files w) = select_files slotId (files w0) ∧
  select_text slotId (text_contents w) =
    select_text slotId (text_contents w0).

(** The password a request carries. *)
Definition credential (req : Request) : option string :=
  match req with
  | Upload _ password _ _ => Some password
  | Access _ password => Some password
  | Download _ _ password => Some password
  | DeleteSlot _ password => Some password
  | CreateSlot _ _ _ | Cleanup => None
  end.

(** The text row an upload leaves for its slot. *)
Definition text_after_upload (slotId : string) (text : option string)
  (rows : list TextContent.t) : list TextContent.t :=
  if has_text text
  then (List.filter
          (fun row => negb (String.eqb (TextContent.slotId row) slotId)) rows
        ++ [{| TextContent.slotId := slotId;
               TextContent.content := default "" text |}])%list
  else rows.

(** ** The countdown timer ([CountdownTimer]) *)

(** The three pieces of component state. *)
Record TimerState := mkTimerState {
  timeRemaining : string;
  isExpired : bool;
  percentage : Q }.

(** [useState("")], [useState(false)], [useState(100)] *)
Definition initial_timer : TimerState :=
  {| timeRemaining := ""; isExpired := false; percentage := 100 |}.

(** [Math.floor(a / b)] *)
Definition floor_div (a b : Z) : Z := Qfloor (inject_Z a / inject_Z b).

(** [updateTimer] at [now = Date.now()].  The branch that is not expired
    does not call [setIsExpired]. *)
Definition updateTimer (expiresAt now : Z) (st : TimerState) : TimerState :=
  let remaining := expiresAt - now in
  if remaining <=? 0
  then {| timeRemaining := "Expired"; isExpired := true; percentage := 0 |}
  else
    let totalDuration := 24 * 60 * 60 * 1000 in
    let elapsed := totalDuration - remaining in
    let pct :=
      Qmax 0 (inject_Z (totalDuration - elapsed) / inject_Z totalDuration
              * 100)%Q in
    let hours := floor_div remaining (1000 * 60 * 60) in
    let minutes := floor_div (Z.rem remaining (1000 * 60 * 60)) (1000 * 60) in
    let seconds := floor_div (Z.rem remaining (1000 * 60)) 1000 in
    {| timeRemaining :=
         if hours >? 0
         then string_of_Z hours +:+ "h " +:+ string_of_Z minutes +:+ "m"
         else if minutes >? 0
         then string_of_Z minutes +:+ "m " +:+ string_of_Z seconds +:+ "s"
         else string_of_Z seconds +:+ "s";
       isExpired := isExpired st;
       percentage := pct |}.

(** [showWarning], computed at render time. *)
Definition showWarning (expiresAt now : Z) (st : TimerState) : bool :=
  negb (isExpired st) && (expiresAt - now <? 2 * 60 * 60 * 1000).

(** The text of the label. *)
Definition timer_label (st : TimerState) : string :=
  if isExpired st then "Expired" else "Expires in: " +:+ timeRemaining st.

(** ** The file list of the upload zone ([FileUploadZone]) *)

(** [xs.filter((x, i) => keep(x, i))], counting from [i]. *)
Fixpoint filter_index {A} (keep : A → nat → bool) (i : nat) (xs : list A)
  : list A :=
  match xs with
  | [] => []
  | x :: xs' =>
      if keep x i then x :: filter_index keep (S i) xs'
      else filter_index keep (S i) xs'
  end.

(** The handlers give the list they pass to [onFilesChange], or [None]
    when they do not call it. *)
Definition handleDrop {A} (disabled : bool) (files dropped : list A)
  : option (list A) :=
  if disabled then None else Some (files ++ dropped)%list.

Definition handleFileSelect {A} (files : list A) (selected : option (list A))
  : option (list A) :=
  match selected with
  | Some selectedFiles => Some (files ++ selectedFiles)%list
  | None => None
  end.

Definition removeFile {A} (files : list A) (index : nat) : list A :=
  filter_index (fun _ i => negb (Nat.eqb i index)) 0 files.

(** * Properties *)

(** ** Equations of the storage operations *)

Lemma bind_eq {A B} (c : M A) (k : A -> M B) w :
  bind c k w =
  match c w with
  | (Returned a, w') => k a w'
  | (Thrown, w') => (Thrown, w')
  | (Starved, w') => (Starved, w')
  end.
Proof. reflexivity. Qed.

Lemma for_each_unlink (rows : list File.t) (w : World) :
  for_each rows unlink_if_exists w =
  (Returned tt,
   {| slots := slots w; files := files w;
      text_contents := text_contents w;
      uploads := uploads w ∖ list_to_set (List.map file_path rows) |}).
Proof.
  clear argon2_hash argon2_verify trim.
  revert w. induction rows as [|row rows IH]; intros w.
  - simpl. unfold ret. f_equal. destruct w as [s f t u]; simpl.
    f_equal. set_solver.
  - cbn [for_each]. rewrite bind_eq.
    unfold unlink_if_exists at 1. rewrite bind_eq.
    unfold existsSync at 1, unlinkSync at 1. fold (file_path row).
    destruct (bool_decide (file_path row ∈ uploads w)) eqn:Hin.
    + rewrite Hin. rewrite IH. cbn [slots files text_contents uploads].
      do 2 f_equal. simpl. set_solver.
    + unfold ret at 1. rewrite IH. do 2 f_equal. simpl.
      apply bool_decide_eq_false in Hin. set_solver.
Qed.

Lemma deleteSlot_purge (slotId : string) (w : World) :
  deleteSlot slotId w = (Returned tt, purge slotId w).
Proof.
  unfold deleteSlot. rewrite bind_eq. unfold getFiles at 1.
  rewrite bind_eq, for_each_unlink. reflexivity.
Qed.

Lemma getSlot_eq slotId w :
  getSlot slotId w = (Returned (select_slot slotId (slots w)), w).
Proof. reflexivity. Qed.

Lemma verifySlotPassword_eq slotId password slot w :
  select_slot slotId (slots w) = Some slot →
  verifySlotPassword slotId password w =
  (Returned (valid_password slot password), w).
Proof.
  intros Hslot. unfold verifySlotPassword, valid_password.
  rewrite bind_eq, getSlot_eq, Hslot.
  destruct (argon2_verify _ _); reflexivity.
Qed.

Lemma incrementFailedAttempts_eq slotId w :
  incrementFailedAttempts slotId w =
  (Returned (failedAttempts_or_0
               (select_slot slotId (slots (counted slotId w)))),
   counted slotId w).
Proof. reflexivity. Qed.

(** ** Lookups in the slot table *)

Lemma select_slot_Some slotId rows row :
  select_slot slotId rows = Some row → In row rows ∧ Slot.id row = slotId.
Proof.
  unfold select_slot. intros H. apply find_some in H as [Hin Heq].
  split; [exact Hin | now apply String.eqb_eq].
Qed.

Lemma select_slot_None slotId rows :
  select_slot slotId rows = None ↔ ∀ row, In row rows → Slot.id row ≠ slotId.
Proof.
  unfold select_slot. split.
  - intros H row Hin Heq.
    pose proof (find_none _ _ H row Hin) as Hf. cbn in Hf.
    apply String.eqb_neq in Hf. contradiction.
  - intros H. induction rows as [|row rows IH]; [reflexivity|].
    cbn [find]. destruct (String.eqb (Slot.id row) slotId) eqn:E.
    + apply String.eqb_eq in E. exfalso. apply (H row); [now left | exact E].
    + apply IH. intros r Hr. apply H. now right.
Qed.

Lemma select_slot_removed slotId slotId' rows :
  select_slot slotId
    (List.filter (fun row => negb (String.eqb (Slot.id row) slotId')) rows) =
  if String.eqb slotId slotId' then None else select_slot slotId rows.
Proof.
  unfold select_slot. induction rows as [|row rows IH]; cbn [List.filter find].
  - now destruct (String.eqb slotId slotId').
  - destruct (String.eqb (Slot.id row) slotId') eqn:E1; cbn [negb find].
    + rewrite IH. destruct (String.eqb slotId slotId') eqn:E2; [reflexivity|].
      destruct (String.eqb (Slot.id row) slotId) eqn:E3; [|reflexivity].
      apply String.eqb_eq in E1, E3. apply String.eqb_neq in E2. congruence.
    + destruct (String.eqb (Slot.id row) slotId) eqn:E3; [|exact IH].
      destruct (String.eqb slotId slotId') eqn:E2; [|reflexivity].
      apply String.eqb_eq in E2, E3. apply String.eqb_neq in E1. congruence.
Qed.

Lemma bump_id slotId row : Slot.id (bump slotId row) = Slot.id row.
Proof. unfold bump. now destruct (String.eqb _ _). Qed.

Lemma select_slot_bumped slotId slotId' rows :
  select_slot slotId (List.map (bump slotId') rows) =
  option_map (bump slotId') (select_slot slotId rows).
Proof.
  unfold select_slot. induction rows as [|row rows IH]; [reflexivity|].
  cbn [List.map find]. rewrite bump_id.
  now destruct (String.eqb (Slot.id row) slotId).
Qed.

Lemma select_slot_inserted slotId rows slot :
  select_slot slotId (rows ++ [slot]) =
  match select_slot slotId rows with
  | Some row => Some row
  | None => if String.eqb (Slot.id slot) slotId then Some slot else None
  end.
Proof.
  unfold select_slot. induction rows as [|row rows IH]; [reflexivity|].
  cbn [app find]. now destruct (String.eqb (Slot.id row) slotId).
Qed.

Lemma purge_slot_gone slotId w :
  select_slot slotId (slots (purge slotId w)) = None.
Proof. cbn [purge slots]. now rewrite select_slot_removed, String.eqb_refl. Qed.

Lemma purge_files_gone slotId w :
  select_files slotId (files (purge slotId w)) = [].
Proof.
  cbn [purge files]. unfold select_files.
  induction (files w) as [|row rows IH]; [reflexivity|].
  cbn [List.filter]. destruct (String.eqb (File.slotId row) slotId) eqn:E;
    cbn [negb List.filter]; [exact IH|]. now rewrite E.
Qed.

Lemma purge_text_gone slotId w :
  select_text slotId (text_contents (purge slotId w)) = None.
Proof.
  cbn [purge text_contents]. unfold select_text.
  induction (text_contents w) as [|row rows IH]; [reflexivity|].
  cbn [List.filter]. destruct (String.eqb (TextContent.slotId row) slotId) eqn:E;
    cbn [negb List.filter find]; [exact IH|]. now rewrite E.
Qed.

Lemma purge_blobs_gone slotId w file :
  In file (select_files slotId (files w)) →
  file_path file ∉ uploads (purge slotId w).
Proof.
  intros Hin. cbn [purge uploads].
  assert (file_path file ∈
          (list_to_set (List.map file_path (select_files slotId (files w)))
             : gset string)) as Hset.
  { apply elem_of_list_to_set, list_elem_of_In, in_map, Hin. }
  rewrite elem_of_difference. intros [_ Hout]. exact (Hout Hset).
Qed.

(** Purging a slot that has no rows left changes nothing. *)
Lemma purge_absent slotId w :
  select_slot slotId (slots w) = None →
  select_files slotId (files w) = [] →
  select_text slotId (text_contents w) = None →
  purge slotId w = w.
Proof.
  clear argon2_hash argon2_verify trim.
  intros Hs Hf Ht. destruct w as [s f t u]. unfold purge. cbn in *.
  rewrite Hf. f_equal.
  - clear -Hs. unfold select_slot in Hs.
    induction s as [|row rows IH]; [reflexivity|]. cbn in *.
    destruct (String.eqb (Slot.id row) slotId); [discriminate|].
    cbn. f_equal. now apply IH.
  - clear -Hf. unfold select_files in Hf.
    induction f as [|row rows IH]; [reflexivity|]. cbn in *.
    destruct (String.eqb (File.slotId row) slotId); [discriminate|].
    cbn. f_equal. now apply IH.
  - clear -Ht. unfold select_text in Ht.
    induction t as [|row rows IH]; [reflexivity|]. cbn in *.
    destruct (String.eqb (TextContent.slotId row) slotId); [discriminate|].
    cbn. f_equal. now apply IH.
  - cbn. set_solver.
Qed.

Lemma purge_idempotent slotId w :
  purge slotId (purge slotId w) = purge slotId w.
Proof.
  apply purge_absent;
    [apply purge_slot_gone | apply purge_files_gone | apply purge_text_gone].
Qed.

(** ** The common prefix of the four slot handlers *)

Ltac enter Hslot :=
  unfold try_catch; rewrite bind_eq, getSlot_eq, Hslot; cbn beta iota.

Ltac enter_expired Hslot Hlate :=
  enter Hslot;
  rewrite (proj2 (Z.gtb_lt _ _) Hlate);
  rewrite bind_eq, deleteSlot_purge; reflexivity.

Lemma gtb_le_false now e : now <= e → (now >? e) = false.
Proof. intros H. rewrite Z.gtb_ltb. now apply Z.ltb_ge. Qed.

Ltac enter_live Hslot Hlive :=
  enter Hslot;
  rewrite (gtb_le_false _ _ Hlive);
  rewrite bind_eq, (verifySlotPassword_eq _ _ _ _ Hslot); cbn beta iota.

Lemma post_access_absent now slotId password w :
  select_slot slotId (slots w) = None →
  post_access now slotId password w = (Returned not_found, w).
Proof. intros Hslot. unfold post_access. enter Hslot. reflexivity. Qed.

Lemma post_access_expired now slotId password slot w :
  select_slot slotId (slots w) = Some slot →
  Slot.expiresAt slot < now →
  post_access now slotId password w = (Returned expired, purge slotId w).
Proof. intros Hslot Hlate. unfold post_access. enter_expired Hslot Hlate. Qed.

(** The count returned by [incrementFailedAttempts] on a stored slot. *)
Lemma incremented_count slotId slot w :
  select_slot slotId (slots w) = Some slot →
  failedAttempts_or_0 (select_slot slotId (slots (counted slotId w))) =
  Slot.failedAttempts slot + 1.
Proof.
  intros Hslot. cbn [counted set_slots slots].
  rewrite select_slot_bumped, Hslot. cbn [option_map failedAttempts_or_0].
  unfold bump. destruct (select_slot_Some _ _ _ Hslot) as [_ ->].
  rewrite String.eqb_refl. cbn [Slot.failedAttempts].
  destruct (Z.eqb_spec (Slot.failedAttempts slot + 1) 0); lia.
Qed.

Lemma counted_slot slotId slot w :
  select_slot slotId (slots w) = Some slot →
  select_slot slotId (slots (counted slotId w)) =
  Some {| Slot.id := Slot.id slot;
          Slot.passwordHash := Slot.passwordHash slot;
          Slot.createdAt := Slot.createdAt slot;
          Slot.expiresAt := Slot.expiresAt slot;
          Slot.failedAttempts := Slot.failedAttempts slot + 1 |}.
Proof.
  intros Hslot. cbn [counted set_slots slots].
  rewrite select_slot_bumped, Hslot. cbn [option_map]. unfold bump.
  destruct (select_slot_Some _ _ _ Hslot) as [_ ->].
  now rewrite String.eqb_refl.
Qed.

Lemma post_access_rejected now slotId password slot w :
  select_slot slotId (slots w) = Some slot →
  now <= Slot.expiresAt slot →
  valid_password slot password = false →
  Slot.failedAttempts slot + 1 < 3 →
  post_access now slotId password w =
  (Returned
     (error_response 401
        ("Invalid password. "
         +:+ string_of_Z (3 - (Slot.failedAttempts slot + 1))
         +:+ " attempts remaining.")),
   counted slotId w).
Proof.
  intros Hslot Hlive Hbad Hfew. unfold post_access. enter_live Hslot Hlive.
  rewrite Hbad. cbn [negb]. rewrite bind_eq, incrementFailedAttempts_eq.
  rewrite (incremented_count _ _ _ Hslot).
  destruct (Z.leb_spec (3 - (Slot.failedAttempts slot + 1)) 0); [lia|].
  reflexivity.
Qed.

Lemma post_access_locked now slotId password slot w :
  select_slot slotId (slots w) = Some slot →
  now <= Slot.expiresAt slot →
  valid_password slot password = false →
  3 <= Slot.failedAttempts slot + 1 →
  post_access now slotId password w =
  (Returned locked_out, purge slotId (counted slotId w)).
Proof.
  intros Hslot Hlive Hbad Hmany. unfold post_access. enter_live Hslot Hlive.
  rewrite Hbad. cbn [negb]. rewrite bind_eq, incrementFailedAttempts_eq.
  rewrite (incremented_count _ _ _ Hslot).
  destruct (Z.leb_spec (3 - (Slot.failedAttempts slot + 1)) 0); [|lia].
  rewrite bind_eq, deleteSlot_purge. reflexivity.
Qed.

Lemma post_access_granted now slotId password slot w :
  select_slot slotId (slots w) = Some slot →
  now <= Slot.expiresAt slot →
  valid_password slot password = true →
  post_access now slotId password w =
  (Returned
     (json_response
        (access_body slot (select_files slotId (files w))
                     (select_text slotId (text_contents w)))),
   w).
Proof.
  intros Hslot Hlive Hgood. unfold post_access. enter_live Hslot Hlive.
  rewrite Hgood. reflexivity.
Qed.

(** The other three slot handlers. *)

Lemma post_upload_absent now slotId password text uploaded w :
  select_slot slotId (slots w) = None →
  post_upload now slotId password text uploaded w = (Returned not_found, w).
Proof. intros Hslot. unfold post_upload. enter Hslot. reflexivity. Qed.

Lemma post_upload_expired now slotId password text uploaded slot w :
  select_slot slotId (slots w) = Some slot →
  Slot.expiresAt slot < now →
  post_upload now slotId password text uploaded w =
  (Returned expired, purge slotId w).
Proof. intros Hslot Hlate. unfold post_upload. enter_expired Hslot Hlate. Qed.

Lemma post_upload_rejected now slotId password text uploaded slot w :
  select_slot slotId (slots w) = Some slot →
  now <= Slot.expiresAt slot →
  valid_password slot password = false →
  post_upload now slotId password text uploaded w =
  (Returned (error_response 401 "Invalid password"), w).
Proof.
  intros Hslot Hlive Hbad. unfold post_upload. enter_live Hslot Hlive.
  now rewrite Hbad.
Qed.

Lemma get_download_absent now slotId fileId password w :
  select_slot slotId (slots w) = None →
  get_download now slotId fileId password w = (Returned not_found, w).
Proof. intros Hslot. unfold get_download. enter Hslot. reflexivity. Qed.

Lemma get_download_expired now slotId fileId password slot w :
  select_slot slotId (slots w) = Some slot →
  Slot.expiresAt slot < now →
  get_download now slotId fileId password w =
  (Returned expired, purge slotId w).
Proof. intros Hslot Hlate. unfold get_download. enter_expired Hslot Hlate. Qed.

Lemma get_download_rejected now slotId fileId password slot w :
  select_slot slotId (slots w) = Some slot →
  now <= Slot.expiresAt slot →
  valid_password slot password = false →
  get_download now slotId fileId password w =
  (Returned (error_response 401 "Invalid password"), w).
Proof.
  intros Hslot Hlive Hbad. unfold get_download. enter_live Hslot Hlive.
  now rewrite Hbad.
Qed.

Lemma delete_slot_absent now slotId password w :
  select_slot slotId (slots w) = None →
  delete_slot now slotId password w = (Returned not_found, w).
Proof. intros Hslot. unfold delete_slot. enter Hslot. reflexivity. Qed.

Lemma delete_slot_expired now slotId password slot w :
  select_slot slotId (slots w) = Some slot →
  Slot.expiresAt slot < now →
  delete_slot now slotId password w = (Returned expired, purge slotId w).
Proof. intros Hslot Hlate. unfold delete_slot. enter_expired Hslot Hlate. Qed.

Lemma delete_slot_rejected now slotId password slot w :
  select_slot slotId (slots w) = Some slot →
  now <= Slot.expiresAt slot →
  valid_password slot password = false →
  delete_slot now slotId password w =
  (Returned (error_response 401 "Invalid password"), w).
Proof.
  intros Hslot Hlive Hbad. unfold delete_slot. enter_live Hslot Hlive.
  now rewrite Hbad.
Qed.

Lemma delete_slot_granted now slotId password slot w :
  select_slot slotId (slots w) = Some slot →
  now <= Slot.expiresAt slot →
  valid_password slot password = true →
  delete_slot now slotId password w =
  (Returned success_response, purge slotId w).
Proof.
  intros Hslot Hlive Hgood. unfold delete_slot. enter_live Hslot Hlive.
  rewrite Hgood. cbn [negb]. now rewrite bind_eq, deleteSlot_purge.
Qed.

(** ** How one event changes the slot table *)

Lemma keeps_or_drops_refl rows : keeps_or_drops rows rows.
Proof. intros slotId. now right. Qed.

Lemma keeps_or_drops_trans rows1 rows2 rows3 :
  keeps_or_drops rows1 rows2 → keeps_or_drops rows2 rows3 →
  keeps_or_drops rows1 rows3.
Proof.
  intros H12 H23 slotId.
  destruct (H23 slotId) as [H|H]; [now left|].
  rewrite H. apply H12.
Qed.

Lemma keeps_or_drops_purge slotId w :
  keeps_or_drops (slots w) (slots (purge slotId w)).
Proof.
  intros slotId'. cbn [purge slots]. rewrite select_slot_removed.
  destruct (String.eqb slotId' slotId); [now left | now right].
Qed.

Lemma evolves_ret {A} (a : A) : evolves (ret a).
Proof. intros w. apply keeps_or_drops_refl. Qed.

Lemma evolves_bind {A B} (c : M A) (k : A -> M B) :
  evolves c → (∀ a, evolves (k a)) → evolves (bind c k).
Proof.
  intros Hc Hk w. rewrite bind_eq. specialize (Hc w).
  destruct (c w) as [[a| |] w1]; cbn [world_of snd] in *; try exact Hc.
  eapply keeps_or_drops_trans; [exact Hc | apply Hk].
Qed.

Lemma evolves_try_catch {A} (c handler : M A) :
  evolves c → evolves handler → evolves (try_catch c handler).
Proof.
  intros Hc Hh w. unfold try_catch. specialize (Hc w).
  destruct (c w) as [[a| |] w1]; cbn [world_of snd] in *; try exact Hc.
  eapply keeps_or_drops_trans; [exact Hc | apply Hh].
Qed.

Lemma evolves_for_each {A} (xs : list A) (body : A -> M unit) :
  (∀ x, evolves (body x)) → evolves (for_each xs body).
Proof.
  intros Hbody. induction xs as [|x xs IH]; cbn [for_each].
  - apply evolves_ret.
  - apply evolves_bind; [apply Hbody | intros _; exact IH].
Qed.

(** An operation that never writes the slot table. *)
Lemma evolves_steady {A} (c : M A) :
  (∀ w, slots (world_of (c w)) = slots w) → evolves c.
Proof. intros H w. rewrite H. apply keeps_or_drops_refl. Qed.

Lemma evolves_getSlot slotId : evolves (getSlot slotId).
Proof. now apply evolves_steady. Qed.

Lemma evolves_verifySlotPassword slotId password :
  evolves (verifySlotPassword slotId password).
Proof.
  apply evolves_steady. intros w. unfold verifySlotPassword.
  rewrite bind_eq, getSlot_eq.
  destruct (select_slot slotId (slots w)); [|reflexivity].
  now destruct (argon2_verify _ _).
Qed.

Lemma evolves_addFile file : evolves (addFile file).
Proof.
  apply evolves_steady. intros w. unfold addFile.
  destruct (select_file _ _); [reflexivity|].
  now destruct (select_slot _ _).
Qed.

Lemma evolves_addTextContent textContent : evolves (addTextContent textContent).
Proof.
  apply evolves_steady. intros w. unfold addTextContent.
  now destruct (select_slot _ _).
Qed.

Lemma evolves_deleteSlot slotId : evolves (deleteSlot slotId).
Proof. intros w. rewrite deleteSlot_purge. apply keeps_or_drops_purge. Qed.

Ltac evolve :=
  repeat first
    [ apply evolves_ret
    | apply evolves_getSlot
    | apply evolves_verifySlotPassword
    | apply evolves_addFile
    | apply evolves_addTextContent
    | apply evolves_deleteSlot
    | apply evolves_try_catch
    | apply evolves_bind; [|intros ?]
    | apply evolves_for_each; intros ?
    | now apply evolves_steady
    | match goal with
      | |- evolves (match ?x with _ => _ end) => destruct x
      end ].

Lemma evolves_post_upload now slotId password text uploaded :
  evolves (post_upload now slotId password text uploaded).
Proof. unfold post_upload. evolve. Qed.

Lemma evolves_upload_route now slotId password text uploaded :
  evolves (upload_route now slotId password text uploaded).
Proof.
  unfold upload_route. apply evolves_bind; [now apply evolves_steady|].
  intros _. apply evolves_post_upload.
Qed.

Lemma evolves_get_download now slotId fileId password :
  evolves (get_download now slotId fileId password).
Proof. unfold get_download. evolve. Qed.

Lemma evolves_delete_slot now slotId password :
  evolves (delete_slot now slotId password).
Proof. unfold delete_slot. evolve. Qed.

Lemma evolves_cleanup_job now : evolves (cleanup_job now).
Proof. unfold cleanup_job, deleteExpiredSlots. evolve. Qed.

(** The access handler either leaves the rows alone, or counts one
    failed attempt and then possibly drops the slot. *)
Lemma post_access_slots now slotId password w :
  let rows' := slots (world_of (post_access now slotId password w)) in
  keeps_or_drops (slots w) rows' ∨
  keeps_or_drops (List.map (bump slotId) (slots w)) rows'.
Proof.
  cbn zeta. destruct (select_slot slotId (slots w)) as [slot|] eqn:Hslot.
  - destruct (Z.lt_ge_cases (Slot.expiresAt slot) now) as [Hlate|Hlive].
    + rewrite (post_access_expired _ _ _ _ _ Hslot Hlate).
      left. apply keeps_or_drops_purge.
    + destruct (valid_password slot password) eqn:Hvalid.
      * rewrite (post_access_granted _ _ _ _ _ Hslot Hlive Hvalid).
        left. apply keeps_or_drops_refl.
      * right.
        destruct (Z.lt_ge_cases (Slot.failedAttempts slot + 1) 3) as [Hfew|Hmany].
        -- rewrite (post_access_rejected _ _ _ _ _ Hslot Hlive Hvalid Hfew).
           apply keeps_or_drops_refl.
        -- rewrite (post_access_locked _ _ _ _ _ Hslot Hlive Hvalid Hmany).
           apply (keeps_or_drops_purge slotId (counted slotId w)).
  - rewrite (post_access_absent _ _ _ _ Hslot). left. apply keeps_or_drops_refl.
Qed.

(** ** Slot creation *)

Lemma createSlot_cases tape salt now password w :
  (world_of (createSlot tape salt now password w) = w ∧
   ∀ slot, result_of (createSlot tape salt now password w) ≠ Returned slot) ∨
  ∃ slotId,
    freshSlotId (List.length tape) (slots w) tape = Some slotId ∧
    select_slot slotId (slots w) = None ∧
    let slot := {| Slot.id := slotId;
                   Slot.passwordHash := argon2_hash password salt;
                   Slot.createdAt := now;
                   Slot.expiresAt := now + 24 * 60 * 60 * 1000;
                   Slot.failedAttempts := 0 |} in
    createSlot tape salt now password w =
    (Returned slot, set_slots (slots w ++ [slot]) w).
Proof.
  unfold createSlot.
  destruct (freshSlotId _ _ _) as [slotId|] eqn:Hfresh.
  - rewrite bind_eq. unfold insert_slot. cbn [Slot.id].
    destruct (select_slot slotId (slots w)) eqn:Hslot.
    + left. split; [reflexivity | discriminate].
    + right. exists slotId. repeat split; assumption.
  - left. split; [reflexivity | discriminate].
Qed.

Lemma post_slot_cases tape salt now password w :
  (world_of (post_slot tape salt now password w) = w ∧
   ∀ slot, result_of (post_slot tape salt now password w) ≠
           Returned (created slot)) ∨
  ∃ slot,
    createSlot tape salt now password w =
      (Returned slot, set_slots (slots w ++ [slot]) w) ∧
    post_slot tape salt now password w =
      (Returned (created slot), set_slots (slots w ++ [slot]) w).
Proof.
  unfold post_slot, try_catch.
  destruct (negb (truthy password) || _).
  - left. split; [reflexivity | discriminate].
  - rewrite bind_eq.
    destruct (createSlot_cases tape salt now password w)
      as [[Hw Hr]|(slotId & _ & _ & Hc)].
    + left. destruct (createSlot tape salt now password w) as [[slot| |] w1].
      * now destruct (Hr slot).
      * cbn in Hw |- *. subst w1. split; [reflexivity | discriminate].
      * cbn in Hw |- *. subst w1. split; [reflexivity | discriminate].
    + right. cbn zeta in Hc. eexists. split; [exact Hc|]. now rewrite Hc.
Qed.

(** One event leaves every stored row alone or drops it, after at most
    one counted failure; or it appends the row it announces. *)
Lemma handle_slots now req w :
  let rows' := slots (world_of (handle now req w)) in
  keeps_or_drops (slots w) rows' ∨
  (∃ slotId, keeps_or_drops (List.map (bump slotId) (slots w)) rows') ∨
  (∃ slot, result_of (handle now req w) = Returned (Some (created slot)) ∧
           rows' = (slots w ++ [slot])%list).
Proof.
  cbn zeta.
  assert (∀ (c : M Response),
            slots (world_of ((r <- c ;; ret (Some r)) w)) =
            slots (world_of (c w))) as Hwrap.
  { intros c. rewrite bind_eq. now destruct (c w) as [[r| |] w1]. }
  destruct req as [tape salt password|slotId password text uploaded
                  |slotId password|slotId fileId password|slotId password|];
    cbn [handle].
  - destruct (post_slot_cases tape salt now password w) as [[Hw _]|(slot & _ & Hp)].
    + left. rewrite Hwrap, Hw. apply keeps_or_drops_refl.
    + right; right. exists slot. rewrite bind_eq, Hp. now split.
  - left. rewrite Hwrap. apply evolves_upload_route.
  - rewrite Hwrap.
    destruct (post_access_slots now slotId password w) as [H|H];
      [now left | right; left; now exists slotId].
  - left. rewrite Hwrap. apply evolves_get_download.
  - left. rewrite Hwrap. apply evolves_delete_slot.
  - left. rewrite bind_eq.
    pose proof (evolves_cleanup_job now w) as H.
    now destruct (cleanup_job now w) as [[[]| |] w1].
Qed.

(** ** A deleted slot stays deleted until its identifier is reissued *)

Lemma handle_absent now req slotId w :
  select_slot slotId (slots w) = None →
  issued_slotId (result_of (handle now req w)) ≠ Some slotId →
  select_slot slotId (slots (world_of (handle now req w))) = None.
Proof.
  intros Hslot Hissued.
  destruct (handle_slots now req w) as [H|[[slotId' H]|(slot & Hr & Hrows)]].
  - destruct (H slotId) as [H'|H']; congruence.
  - destruct (H slotId) as [H'|H']; [exact H'|].
    rewrite H', select_slot_bumped, Hslot. reflexivity.
  - rewrite Hrows, select_slot_inserted, Hslot.
    rewrite Hr in Hissued. cbn in Hissued.
    destruct (String.eqb_spec (Slot.id slot) slotId); congruence.
Qed.

Lemma handle_target_absent now req slotId w :
  target req = Some slotId →
  select_slot slotId (slots w) = None →
  result_of (handle now req w) = Returned (Some not_found).
Proof.
  intros Htarget Hslot.
  destruct req; cbn [target] in Htarget; try discriminate;
    injection Htarget as ->; cbn [handle]; rewrite bind_eq.
  - unfold upload_route. rewrite bind_eq. cbn [multer_store].
    now rewrite post_upload_absent.
  - now rewrite post_access_absent.
  - now rewrite get_download_absent.
  - now rewrite delete_slot_absent.
Qed.

Lemma absent_not_found slotId events w :
  select_slot slotId (slots w) = None →
  never_reissued slotId events w →
  not_found_throughout slotId events w.
Proof.
  unfold never_reissued, not_found_throughout.
  revert w. induction events as [|[now0 req0] events IH]; intros w Hslot Hnever.
  - intros n now req r Hn. now rewrite lookup_nil in Hn.
  - cbn [run] in *.
    pose proof (handle_absent now0 req0 slotId w Hslot) as Hstep.
    pose proof (handle_target_absent now0 req0 slotId w) as Hanswer.
    destruct (handle now0 req0 w) as [r0 w1].
    specialize (IH w1).
    destruct (run events w1) as [rs w2]. cbn [fst result_of world_of snd] in *.
    apply Forall_cons in Hnever as [Hr0 Hrs].
    intros [|n] now req r Hn Hr Htarget; cbn in Hn, Hr.
    + injection Hn as -> ->. injection Hr as <-. now apply Hanswer.
    + eapply IH; eauto.
Qed.

(** ** Generated identifiers *)

Lemma random_below_range r n :
  unit_interval r → 0 < n → 0 <= random_below r n < n.
Proof.
  intros [Hlo Hhi] Hn. unfold random_below.
  assert (0 <= r * inject_Z n)%Q as Hnonneg.
  { apply Qmult_le_0_compat; [exact Hlo|].
    change 0%Q with (inject_Z 0). rewrite <- Zle_Qle. lia. }
  assert (r * inject_Z n < inject_Z n)%Q as Hbelow.
  { apply Qlt_le_trans with (1 * inject_Z n)%Q.
    - apply Qmult_lt_compat_r; [|exact Hhi].
      change 0%Q with (inject_Z 0). rewrite <- Zlt_Qlt. lia.
    - rewrite Qmult_1_l. apply Qle_refl. }
  split.
  - rewrite <- (Qfloor_Z 0). now apply Qfloor_resp_le.
  - rewrite Zlt_Qlt. eapply Qle_lt_trans; [apply Qfloor_le | exact Hbelow].
Qed.

Lemma length_append (a b : string) :
  String.length (a +:+ b) = (String.length a + String.length b)%nat.
Proof.
  induction a as [|c a IH]; [reflexivity|].
  change (S (String.length (a +:+ b)) =
          S (String.length a + String.length b)).
  now rewrite IH.
Qed.

Lemma all_digits_append (a b : string) :
  all_digits (a +:+ b) = all_digits a && all_digits b.
Proof.
  unfold all_digits. induction a as [|c a IH]; [reflexivity|].
  change (is_digit c && forallb is_digit (list_ascii_of_string (a +:+ b)) =
          is_digit c && forallb is_digit (list_ascii_of_string a)
          && forallb is_digit (list_ascii_of_string b)).
  now rewrite IH, andb_assoc.
Qed.

Lemma digit_string z :
  0 <= z < 10 →
  String.length (string_of_Z z) = 1%nat ∧ all_digits (string_of_Z z) = true.
Proof.
  intros Hz.
  assert (z = 0 ∨ z = 1 ∨ z = 2 ∨ z = 3 ∨ z = 4 ∨
          z = 5 ∨ z = 6 ∨ z = 7 ∨ z = 8 ∨ z = 9) as Hcases by lia.
  repeat destruct Hcases as [->|Hcases]; try subst z; now vm_compute.
Qed.

Lemma append_digits_spec length :
  ∀ id tape id' tape',
    Forall unit_interval tape →
    append_digits length id tape = Some (id', tape') →
    String.length id' = (String.length id + length)%nat ∧
    all_digits id' = all_digits id ∧
    Forall unit_interval tape' ∧
    (List.length tape' <= List.length tape)%nat.
Proof.
  induction length as [|length IH]; intros id tape id' tape' Htape Hrun.
  - cbn in Hrun. injection Hrun as <- <-. repeat split; auto with arith.
  - cbn [append_digits] in Hrun. destruct tape as [|r tape]; [discriminate|].
    apply Forall_cons in Htape as [Hr Htape].
    destruct (IH _ _ _ _ Htape Hrun) as (Hlen & Hdig & Hrest & Hshort).
    destruct (digit_string (random_below r 10)) as [Hone Hdigit].
    { apply random_below_range; [exact Hr | lia]. }
    rewrite Hlen, Hdig, length_append, all_digits_append, Hone, Hdigit.
    repeat split; [lia | apply andb_true_r | exact Hrest | cbn; lia].
Qed.

Lemma generateSlotId_spec tape id tape' :
  Forall unit_interval tape →
  generateSlotId tape = Some (id, tape') →
  (6 <= String.length id <= 8)%nat ∧ all_digits id = true ∧
  Forall unit_interval tape' ∧ (List.length tape' < List.length tape)%nat.
Proof.
  intros Htape Hgen. unfold generateSlotId in Hgen.
  destruct tape as [|r tape]; [discriminate|].
  apply Forall_cons in Htape as [Hr Htape].
  destruct (append_digits_spec _ _ _ _ _ Htape Hgen) as (Hlen & Hdig & Hrest & Hshort).
  pose proof (random_below_range r 3 Hr ltac:(lia)) as Hrange.
  cbn [String.length all_digits list_ascii_of_string forallb] in Hlen, Hdig.
  repeat split; try assumption; cbn [List.length]; lia.
Qed.

Lemma freshSlotId_spec fuel :
  ∀ rows tape slotId,
    Forall unit_interval tape →
    freshSlotId fuel rows tape = Some slotId →
    (6 <= String.length slotId <= 8)%nat ∧ all_digits slotId = true ∧
    select_slot slotId rows = None.
Proof.
  induction fuel as [|fuel IH]; intros rows tape slotId Htape Hrun;
    [discriminate|].
  cbn [freshSlotId] in Hrun.
  destruct (generateSlotId tape) as [[candidate tape']|] eqn:Hgen;
    [|discriminate].
  destruct (generateSlotId_spec _ _ _ Htape Hgen) as (Hlen & Hdig & Hrest & _).
  destruct (select_slot candidate rows) eqn:Hslot.
  - now apply (IH rows tape').
  - injection Hrun as <-. now repeat split.
Qed.

Lemma generateSlotId_shorter tape slotId tape' :
  generateSlotId tape = Some (slotId, tape') →
  (List.length tape' < List.length tape)%nat.
Proof.
  unfold generateSlotId. destruct tape as [|r tape]; [discriminate|].
  generalize (Z.to_nat (random_below r 3 + 6)) "".
  intros n. revert tape. induction n as [|n IHn]; intros tape id Hgen.
  - cbn in Hgen. injection Hgen as _ <-. cbn. lia.
  - cbn in Hgen. destruct tape as [|r' tape]; [discriminate|].
    apply IHn in Hgen. cbn in *. lia.
Qed.

(** Fuel beyond the length of the tape is never used. *)
Lemma freshSlotId_fuel fuel :
  ∀ fuel' rows tape,
    (List.length tape <= fuel)%nat →
    (List.length tape <= fuel')%nat →
    freshSlotId fuel rows tape = freshSlotId fuel' rows tape.
Proof.
  induction fuel as [|fuel IH]; intros fuel' rows tape Hfuel Hfuel'.
  - destruct tape; [|cbn in Hfuel; lia]. now destruct fuel'.
  - destruct fuel' as [|fuel'].
    + destruct tape; [reflexivity | cbn in Hfuel'; lia].
    + cbn [freshSlotId].
      destruct (generateSlotId tape) as [[candidate tape']|] eqn:Hgen;
        [|reflexivity].
      destruct (select_slot candidate rows); [|reflexivity].
      apply generateSlotId_shorter in Hgen. apply IH; lia.
Qed.

(** The loop ends at the first candidate that is not a stored id. *)
Lemma createSlot_first_free tape tape' salt now password slotId w :
  generateSlotId tape = Some (slotId, tape') →
  select_slot slotId (slots w) = None →
  ∃ slot w',
    createSlot tape salt now password w = (Returned slot, w') ∧
    Slot.id slot = slotId.
Proof.
  intros Hgen Hfree. unfold createSlot.
  destruct tape as [|r tape]; [discriminate|].
  cbn [List.length freshSlotId]. rewrite Hgen, Hfree.
  rewrite bind_eq. unfold insert_slot. cbn [Slot.id]. rewrite Hfree.
  eexists _, _. split; reflexivity.
Qed.

(** A candidate that is taken is discarded and the loop draws again. *)
Lemma freshSlotId_retry fuel rows tape tape' slotId row :
  generateSlotId tape = Some (slotId, tape') →
  select_slot slotId rows = Some row →
  freshSlotId (S fuel) rows tape = freshSlotId fuel rows tape'.
Proof. intros Hgen Htaken. cbn [freshSlotId]. now rewrite Hgen, Htaken. Qed.

(** ** The sweep *)

Lemma sweep_loop rows w :
  for_each rows (fun slot => deleteSlot (Slot.id slot)) w =
  (Returned tt, purge_all rows w).
Proof.
  revert w. induction rows as [|row rows IH]; intros w; [reflexivity|].
  cbn [for_each]. now rewrite bind_eq, deleteSlot_purge, IH.
Qed.

Lemma purge_all_keeps_absent rows slotId w :
  select_slot slotId (slots w) = None →
  select_slot slotId (slots (purge_all rows w)) = None.
Proof.
  revert w. induction rows as [|row rows IH]; intros w Hslot; [exact Hslot|].
  cbn [purge_all fold_left]. apply IH.
  destruct (keeps_or_drops_purge (Slot.id row) w slotId); congruence.
Qed.

Lemma purge_all_drops rows slot w :
  In slot rows → select_slot (Slot.id slot) (slots (purge_all rows w)) = None.
Proof.
  revert w. induction rows as [|row rows IH]; intros w Hin; [destruct Hin|].
  cbn [purge_all fold_left]. destruct Hin as [->|Hin].
  - apply purge_all_keeps_absent, purge_slot_gone.
  - now apply IH.
Qed.

Lemma deleteExpiredSlots_eq now w :
  deleteExpiredSlots now w =
  (Returned tt,
   purge_all (List.filter (fun row => Slot.expiresAt row <=? now) (slots w)) w).
Proof. unfold deleteExpiredSlots. rewrite bind_eq. apply sweep_loop. Qed.

(** ** Cascading deletion *)

(** C4. Cascading deletion is idempotent.  [deleteSlot] never throws;
    afterwards the slot has no row, no file record, no text record, and
    none of the blobs of its file records is left on disk; a second
    [deleteSlot] on the same id returns normally and changes nothing; and
    the sweep, run afterwards on any list of expired rows (also one that
    was read before the slot went away and still names it), returns
    normally and leaves the slot absent. *)
Theorem cascading_deletion_idempotent slotId w :
  ∃ w',
    deleteSlot slotId w = (Returned tt, w') ∧
    select_slot slotId (slots w') = None ∧
    select_files slotId (files w') = [] ∧
    select_text slotId (text_contents w') = None ∧
    (∀ file, In file (select_files slotId (files w)) →
             file_path file ∉ uploads w') ∧
    deleteSlot slotId w' = (Returned tt, w') ∧
    (∀ now, ∃ w'',
        deleteExpiredSlots now w' = (Returned tt, w'') ∧
        select_slot slotId (slots w'') = None) ∧
    (∀ expiredSlots, ∃ w'',
        for_each expiredSlots (fun slot => deleteSlot (Slot.id slot)) w' =
          (Returned tt, w'') ∧
        select_slot slotId (slots w'') = None).
Proof.
  exists (purge slotId w). repeat split.
  - apply deleteSlot_purge.
  - apply purge_slot_gone.
  - apply purge_files_gone.
  - apply purge_text_gone.
  - apply purge_blobs_gone.
  - now rewrite deleteSlot_purge, purge_idempotent.
  - intros now. eexists. split; [apply deleteExpiredSlots_eq|].
    apply purge_all_keeps_absent, purge_slot_gone.
  - intros expiredSlots. eexists. split; [apply sweep_loop|].
    apply purge_all_keeps_absent, purge_slot_gone.
Qed.

(** ** Lazy expiration *)

Lemma received_slots req w : slots (received req w) = slots w.
Proof. now destruct req. Qed.

Lemma handle_expired now req slotId slot w :
  target req = Some slotId →
  select_slot slotId (slots w) = Some slot →
  Slot.expiresAt slot < now →
  handle now req w = (Returned (Some expired), purge slotId (received req w)).
Proof.
  intros Htarget Hslot Hlate.
  destruct req; cbn [target] in Htarget; try discriminate;
    injection Htarget as ->; cbn [handle received]; rewrite bind_eq.
  - unfold upload_route. rewrite bind_eq.
    destruct (multer_store uploaded w) as [o w1] eqn:Hstore.
    unfold multer_store in Hstore. injection Hstore as <- <-.
    now erewrite post_upload_expired by eassumption.
  - now erewrite post_access_expired by eassumption.
  - now erewrite get_download_expired by eassumption.
  - now erewrite delete_slot_expired by eassumption.
Qed.

(** C3. On each of the four access paths (upload, read, download, explicit
    delete), a slot whose [expiresAt] is earlier than the current time is
    answered with 410 "Slot has expired", whatever the password, and the
    state reached is exactly the one [deleteSlot] produces from what the
    request had already stored: the slot, its file records, its text
    record and its blobs are gone, and nothing else was read or written. *)
Theorem lazy_expiration now req slotId slot w :
  target req = Some slotId →
  select_slot slotId (slots w) = Some slot →
  Slot.expiresAt slot < now →
  ∃ w',
    handle now req w = (Returned (Some expired), w') ∧
    w' = world_of (deleteSlot slotId (received req w)) ∧
    select_slot slotId (slots w') = None ∧
    select_files slotId (files w') = [] ∧
    select_text slotId (text_contents w') = None ∧
    (∀ file, In file (select_files slotId (files w)) →
             file_path file ∉ uploads w').
Proof.
  intros Htarget Hslot Hlate. exists (purge slotId (received req w)).
  repeat split.
  - now apply (handle_expired _ _ _ slot).
  - now rewrite deleteSlot_purge.
  - apply purge_slot_gone.
  - apply purge_files_gone.
  - apply purge_text_gone.
  - intros file Hin. apply purge_blobs_gone.
    now replace (files (received req w)) with (files w) by now destruct req.
Qed.

(** C7. A slot whose [expiresAt] is in the past answers its first access
    with 410 "Slot has expired" and is deleted by that access; from then
    on every request addressed to the same id is answered 404 "Slot not
    found", in every run of the server in which the id is not handed out
    again by a creation. *)
Theorem expired_then_not_found now req slotId slot w :
  target req = Some slotId →
  select_slot slotId (slots w) = Some slot →
  Slot.expiresAt slot < now →
  ∃ w',
    handle now req w = (Returned (Some expired), w') ∧
    select_slot slotId (slots w') = None ∧
    (∀ now' password',
        post_access now' slotId password' w' = (Returned not_found, w')) ∧
    (∀ events, never_reissued slotId events w' →
               not_found_throughout slotId events w').
Proof.
  intros Htarget Hslot Hlate. exists (purge slotId (received req w)).
  assert (select_slot slotId (slots (purge slotId (received req w))) = None)
    as Hgone by apply purge_slot_gone.
  repeat split.
  - now apply (handle_expired _ _ _ slot).
  - exact Hgone.
  - intros now' password'. now apply post_access_absent.
  - intros events. now apply absent_not_found.
Qed.

(** ** Lockout *)

(** C1. A failed password verification on the access path adds one to
    [failedAttempts].  While the new count is below 3 the slot stays, with
    only that field changed, and the answer is 401.  When the new count
    reaches 3 the answer is 403 "Too many failed attempts. Slot deleted."
    and the state is the one [deleteSlot] produces: no row, no file
    records, no text record; from then on every access to that id, with
    any password, is answered 404 "Slot not found", in every run in which
    the id is not handed out again by a creation. *)
Theorem lockout_after_three_failures now slotId password slot w :
  select_slot slotId (slots w) = Some slot →
  now <= Slot.expiresAt slot →
  valid_password slot password = false →
  (Slot.failedAttempts slot + 1 < 3 →
   ∃ w',
     post_access now slotId password w =
       (Returned
          (error_response 401
             ("Invalid password. "
              +:+ string_of_Z (3 - (Slot.failedAttempts slot + 1))
              +:+ " attempts remaining.")), w') ∧
     select_slot slotId (slots w') =
       Some {| Slot.id := Slot.id slot;
               Slot.passwordHash := Slot.passwordHash slot;
               Slot.createdAt := Slot.createdAt slot;
               Slot.expiresAt := Slot.expiresAt slot;
               Slot.failedAttempts := Slot.failedAttempts slot + 1 |}) ∧
  (3 <= Slot.failedAttempts slot + 1 →
   ∃ w',
     post_access now slotId password w = (Returned locked_out, w') ∧
     w' = world_of (deleteSlot slotId (counted slotId w)) ∧
     select_slot slotId (slots w') = None ∧
     select_files slotId (files w') = [] ∧
     select_text slotId (text_contents w') = None ∧
     (∀ now' password',
         post_access now' slotId password' w' = (Returned not_found, w')) ∧
     (∀ events, never_reissued slotId events w' →
                not_found_throughout slotId events w')).
Proof.
  intros Hslot Hlive Hbad. split.
  - intros Hfew. exists (counted slotId w). split.
    + now apply (post_access_rejected _ _ _ slot).
    + now apply counted_slot.
  - intros Hmany. exists (purge slotId (counted slotId w)).
    assert (select_slot slotId (slots (purge slotId (counted slotId w))) = None)
      as Hgone by apply purge_slot_gone.
    repeat split.
    + now apply (post_access_locked _ _ _ slot).
    + now rewrite deleteSlot_purge.
    + exact Hgone.
    + apply purge_files_gone.
    + apply purge_text_gone.
    + intros now' password'. now apply post_access_absent.
    + intros events. now apply absent_not_found.
Qed.

(** ** The lockout counter of a stored slot is 0, 1 or 2 *)

Lemma attempts_in_range_kept rows rows' :
  keeps_or_drops rows rows' →
  attempts_in_range rows → attempts_in_range rows'.
Proof.
  intros Hkeep Hrange slotId slot Hslot.
  destruct (Hkeep slotId) as [H|H]; [congruence|].
  apply (Hrange slotId). congruence.
Qed.

Lemma bump_other slotId row : Slot.id row ≠ slotId → bump slotId row = row.
Proof.
  intros Hne. unfold bump. now destruct (String.eqb_spec (Slot.id row) slotId).
Qed.

Lemma post_access_attempts_in_range now slotId password w :
  attempts_in_range (slots w) →
  attempts_in_range (slots (world_of (post_access now slotId password w))).
Proof.
  intros Hrange.
  destruct (select_slot slotId (slots w)) as [slot|] eqn:Hslot.
  - destruct (Z.lt_ge_cases (Slot.expiresAt slot) now) as [Hlate|Hlive].
    { rewrite (post_access_expired _ _ _ _ _ Hslot Hlate).
      eapply attempts_in_range_kept; [apply keeps_or_drops_purge | exact Hrange]. }
    destruct (valid_password slot password) eqn:Hvalid.
    { now rewrite (post_access_granted _ _ _ _ _ Hslot Hlive Hvalid). }
    destruct (Z.lt_ge_cases (Slot.failedAttempts slot + 1) 3) as [Hfew|Hmany].
    + rewrite (post_access_rejected _ _ _ _ _ Hslot Hlive Hvalid Hfew).
      intros slotId' slot' Hslot'. cbn [world_of snd counted set_slots slots] in Hslot'.
      rewrite select_slot_bumped in Hslot'.
      destruct (select_slot slotId' (slots w)) as [row|] eqn:Hrow; [|discriminate].
      injection Hslot' as <-.
      pose proof (Hrange _ _ Hrow) as Hrow_range.
      destruct (select_slot_Some _ _ _ Hrow) as [_ Hid].
      destruct (String.eqb_spec slotId' slotId) as [->|Hne].
      * assert (row = slot) as -> by congruence.
        unfold bump. rewrite Hid, String.eqb_refl. cbn. lia.
      * rewrite bump_other by congruence. exact Hrow_range.
    + rewrite (post_access_locked _ _ _ _ _ Hslot Hlive Hvalid Hmany).
      intros slotId' slot' Hslot'.
      cbn [world_of snd purge counted set_slots slots] in Hslot'.
      rewrite select_slot_removed, select_slot_bumped in Hslot'.
      destruct (String.eqb_spec slotId' slotId) as [->|Hne]; [discriminate|].
      destruct (select_slot slotId' (slots w)) as [row|] eqn:Hrow; [|discriminate].
      injection Hslot' as <-.
      destruct (select_slot_Some _ _ _ Hrow) as [_ Hid].
      rewrite bump_other by congruence. now apply (Hrange slotId').
  - now rewrite (post_access_absent _ _ _ _ Hslot).
Qed.

Lemma handle_attempts_in_range now req w :
  attempts_in_range (slots w) →
  attempts_in_range (slots (world_of (handle now req w))).
Proof.
  intros Hrange.
  assert (∀ (c : M Response),
            slots (world_of ((r <- c ;; ret (Some r)) w)) =
            slots (world_of (c w))) as Hwrap.
  { intros c. rewrite bind_eq. now destruct (c w) as [[r| |] w1]. }
  destruct req as [tape salt password|slotId password text uploaded
                  |slotId password|slotId fileId password|slotId password|];
    cbn [handle]; rewrite ?Hwrap.
  - destruct (post_slot_cases tape salt now password w)
      as [[-> _]|(slot & Hcreate & ->)]; [exact Hrange|].
    destruct (createSlot_cases tape salt now password w)
      as [[_ Hr]|(slotId & _ & _ & Hc)].
    { rewrite Hcreate in Hr. now destruct (Hr slot). }
    cbn zeta in Hc. rewrite Hc in Hcreate. injection Hcreate as <-.
    intros slotId' slot' Hslot'.
    cbn [world_of snd set_slots slots] in Hslot'.
    rewrite select_slot_inserted in Hslot'.
    destruct (select_slot slotId' (slots w)) as [row|] eqn:Hrow.
    + injection Hslot' as <-. now apply (Hrange slotId').
    + cbn [Slot.id] in Hslot'. destruct (String.eqb slotId slotId');
        [|discriminate].
      injection Hslot' as <-. cbn. lia.
  - eapply attempts_in_range_kept; [apply evolves_upload_route | exact Hrange].
  - now apply post_access_attempts_in_range.
  - eapply attempts_in_range_kept; [apply evolves_get_download | exact Hrange].
  - eapply attempts_in_range_kept; [apply evolves_delete_slot | exact Hrange].
  - rewrite bind_eq. pose proof (evolves_cleanup_job now w) as Hkeep.
    destruct (cleanup_job now w) as [[[]| |] w1];
      (eapply attempts_in_range_kept; [exact Hkeep | exact Hrange]).
Qed.

(** Every state the server reaches from the empty store satisfies it. *)
Lemma reachable_attempts_in_range events :
  attempts_in_range (slots (snd (run events initial_world))).
Proof.
  assert (∀ w, attempts_in_range (slots w) →
               attempts_in_range (slots (snd (run events w)))) as Hrun.
  { induction events as [|[now req] events IH]; intros w Hrange; [exact Hrange|].
    cbn [run]. pose proof (handle_attempts_in_range now req w Hrange) as Hstep.
    destruct (handle now req w) as [r w1]. specialize (IH w1 Hstep).
    now destruct (run events w1) as [rs w2]. }
  apply Hrun. intros slotId slot Hslot. discriminate.
Qed.

(** ** The fields of a slot over its lifetime *)

Lemma bump_fields slotId slot :
  Slot.id (bump slotId slot) = Slot.id slot ∧
  Slot.passwordHash (bump slotId slot) = Slot.passwordHash slot ∧
  Slot.createdAt (bump slotId slot) = Slot.createdAt slot ∧
  Slot.expiresAt (bump slotId slot) = Slot.expiresAt slot ∧
  (Slot.failedAttempts (bump slotId slot) = Slot.failedAttempts slot ∨
   Slot.failedAttempts (bump slotId slot) = Slot.failedAttempts slot + 1).
Proof. unfold bump. destruct (String.eqb _ _); cbn; auto 6. Qed.

(** C5. A slot is created with [expiresAt = createdAt + 24h] (in
    milliseconds) and [failedAttempts = 0], and is stored as such.  Any
    one event of the server (a request on any route, or the cleanup job)
    either deletes a stored slot or leaves its [id], [passwordHash],
    [createdAt] and [expiresAt] as they were, with [failedAttempts]
    unchanged or larger by one. *)
Theorem slot_fields_immutable :
  (∀ tape salt now password w slot w',
      createSlot tape salt now password w = (Returned slot, w') →
      Slot.createdAt slot = now ∧
      Slot.expiresAt slot = Slot.createdAt slot + 86400000 ∧
      Slot.failedAttempts slot = 0 ∧
      select_slot (Slot.id slot) (slots w') = Some slot) ∧
  (∀ now req w slotId slot,
      select_slot slotId (slots w) = Some slot →
      select_slot slotId (slots (world_of (handle now req w))) = None ∨
      ∃ slot',
        select_slot slotId (slots (world_of (handle now req w))) = Some slot' ∧
        Slot.id slot' = Slot.id slot ∧
        Slot.passwordHash slot' = Slot.passwordHash slot ∧
        Slot.createdAt slot' = Slot.createdAt slot ∧
        Slot.expiresAt slot' = Slot.expiresAt slot ∧
        (Slot.failedAttempts slot' = Slot.failedAttempts slot ∨
         Slot.failedAttempts slot' = Slot.failedAttempts slot + 1)).
Proof.
  split.
  - intros tape salt now password w slot w' Hcreate.
    destruct (createSlot_cases tape salt now password w)
      as [[_ Hr]|(slotId & _ & Hfree & Hc)].
    + rewrite Hcreate in Hr. now destruct (Hr slot).
    + cbn zeta in Hc. rewrite Hc in Hcreate. injection Hcreate as <- <-.
      cbn [Slot.createdAt Slot.expiresAt Slot.failedAttempts Slot.id
           set_slots slots].
      split; [reflexivity|]. split; [lia|]. split; [reflexivity|].
      rewrite select_slot_inserted, Hfree. cbn [Slot.id].
      now rewrite String.eqb_refl.
  - intros now req w slotId slot Hslot.
    destruct (handle_slots now req w) as [H|[[slotId' H]|(added & _ & Hrows)]].
    + destruct (H slotId) as [H'|H']; [now left|].
      right. exists slot. rewrite H', Hslot. auto 7.
    + destruct (H slotId) as [H'|H']; [now left|].
      right. exists (bump slotId' slot).
      rewrite H', select_slot_bumped, Hslot.
      split; [reflexivity | apply bump_fields].
    + right. exists slot. rewrite Hrows, select_slot_inserted, Hslot. auto 7.
Qed.

(** ** What responses contain *)

Lemma answers_ret (P : Response → Prop) r : P r → answers P (ret r).
Proof. intros HP w r' Hr. cbn in Hr. now injection Hr as <-. Qed.

Lemma answers_bind {A} (P : Response → Prop) (c : M A) (k : A -> M Response) :
  (∀ a, answers P (k a)) → answers P (bind c k).
Proof.
  intros Hk w r. rewrite bind_eq.
  destruct (c w) as [[a| |] w1]; [apply Hk | discriminate | discriminate].
Qed.

Lemma answers_try_catch (P : Response → Prop) (c handler : M Response) :
  answers P c → answers P handler → answers P (try_catch c handler).
Proof.
  intros Hc Hh w r. unfold try_catch. specialize (Hc w).
  destruct (c w) as [[a| |] w1]; [apply Hc | apply Hh | discriminate].
Qed.

Ltac answer :=
  repeat first
    [ apply answers_try_catch
    | apply answers_bind; intros ?
    | apply answers_ret
    | match goal with
      | |- answers _ (match ?x with _ => _ end) => destruct x
      end ].

Lemma handle_wire_format now req w r :
  result_of (handle now req w) = Returned (Some r) → wire_format r.
Proof.
  assert (∀ c : M Response,
            answers wire_format c →
            result_of ((r <- c ;; ret (Some r)) w) = Returned (Some r) →
            wire_format r) as Hwrap.
  { intros c Hc. rewrite bind_eq. specialize (Hc w).
    destruct (c w) as [[r'| |] w1]; cbn; try discriminate.
    intros Hr. injection Hr as <-. now apply Hc. }
  destruct req; cbn [handle].
  - apply Hwrap. unfold post_slot. answer; constructor.
  - apply Hwrap. unfold upload_route, post_upload. answer; constructor.
  - apply Hwrap. unfold post_access. answer; constructor.
  - apply Hwrap. unfold get_download. answer; constructor.
  - apply Hwrap. unfold delete_slot. answer; constructor.
  - rewrite bind_eq. now destruct (cleanup_job now w) as [[[]| |] w1].
Qed.

Lemma file_keys rows key :
  In key (flat_map json_keys (List.map json_of_File rows)) →
  In key ["id"; "slotId"; "filename"; "originalName"; "size"; "mimeType";
          "uploadedAt"].
Proof.
  clear argon2_hash argon2_verify trim.
  induction rows as [|row rows IH]; [intros []|].
  cbn [List.map flat_map]. intros Hin. apply in_app_or in Hin as [Hin|Hin].
  - unfold json_of_File in Hin.
    destruct (File.mimeType row); cbn in Hin |- *; tauto.
  - now apply IH.
Qed.

Lemma wire_format_keys r key :
  wire_format r →
  In key (body_keys r) →
  In key ["error"; "success"; "slotId"; "expiresAt"; "slot"; "id";
          "createdAt"; "files"; "filename"; "originalName"; "size";
          "mimeType"; "uploadedAt"; "textContent"; "content"].
Proof.
  clear argon2_hash argon2_verify trim.
  intros [code message| |slot|slot rows textContent|filePath originalName];
    cbn; try tauto.
  intros Hin.
  repeat destruct Hin as [<-|Hin]; try (cbn; tauto).
  apply in_app_or in Hin as [Hin|Hin].
  - apply file_keys in Hin. cbn in Hin |- *. tauto.
  - destruct textContent; cbn in Hin |- *; tauto.
Qed.

(** C6. No response of any route has a field named [passwordHash] or
    [failedAttempts], at any depth.  A successful access (status 200)
    answers with exactly the fields [slot], [files] and [textContent],
    where [slot] has exactly [id], [createdAt] and [expiresAt] of the
    stored slot, [files] are its file records and [textContent] is its
    text record (the field is absent when the slot has none). *)
Theorem responses_hide_secrets now req w r :
  result_of (handle now req w) = Returned (Some r) →
  ¬ In "passwordHash" (body_keys r) ∧
  ¬ In "failedAttempts" (body_keys r) ∧
  (∀ slotId password,
      req = Access slotId password →
      status r = 200 →
      ∃ slot,
        select_slot slotId (slots w) = Some slot ∧
        body r =
          JsonBody
            (JObj ([("slot", JObj [("id", JStr (Slot.id slot));
                                   ("createdAt", JNum (Slot.createdAt slot));
                                   ("expiresAt", JNum (Slot.expiresAt slot))]);
                    ("files",
                     JArr (List.map json_of_File
                             (select_files slotId (files w))))]
                   ++ match select_text slotId (text_contents w) with
                      | Some textContent =>
                          [("textContent",
                            JObj [("slotId",
                                   JStr (TextContent.slotId textContent));
                                  ("content",
                                   JStr (TextContent.content textContent))])]
                      | None => []
                      end))).
Proof.
  intros Hr. pose proof (handle_wire_format _ _ _ _ Hr) as Hwire.
  repeat split.
  - intros Hin. apply (wire_format_keys _ _ Hwire) in Hin.
    cbn in Hin. intuition discriminate.
  - intros Hin. apply (wire_format_keys _ _ Hwire) in Hin.
    cbn in Hin. intuition discriminate.
  - intros slotId password -> Hok. cbn [handle] in Hr. rewrite bind_eq in Hr.
    destruct (select_slot slotId (slots w)) as [slot|] eqn:Hslot.
    + exists slot. split; [reflexivity|].
      destruct (Z.lt_ge_cases (Slot.expiresAt slot) now) as [Hlate|Hlive].
      { rewrite (post_access_expired _ _ _ _ _ Hslot Hlate) in Hr.
        injection Hr as <-. discriminate. }
      destruct (valid_password slot password) eqn:Hvalid.
      { rewrite (post_access_granted _ _ _ _ _ Hslot Hlive Hvalid) in Hr.
        now injection Hr as <-. }
      destruct (Z.lt_ge_cases (Slot.failedAttempts slot + 1) 3) as [Hfew|Hmany].
      { rewrite (post_access_rejected _ _ _ _ _ Hslot Hlive Hvalid Hfew) in Hr.
        injection Hr as <-. discriminate. }
      rewrite (post_access_locked _ _ _ _ _ Hslot Hlive Hvalid Hmany) in Hr.
      injection Hr as <-. discriminate.
    + rewrite (post_access_absent _ _ _ _ Hslot) in Hr.
      injection Hr as <-. discriminate.
Qed.

(** ** Identifiers handed out by creation *)

(** A first candidate that is taken costs its readings and nothing else. *)
Lemma createSlot_retry tape tape' salt now password candidate row w :
  generateSlotId tape = Some (candidate, tape') →
  select_slot candidate (slots w) = Some row →
  createSlot tape salt now password w = createSlot tape' salt now password w.
Proof.
  intros Hgen Htaken. unfold createSlot.
  pose proof (generateSlotId_shorter _ _ _ Hgen) as Hshort.
  destruct (List.length tape) as [|fuel] eqn:Hlen; [lia|].
  rewrite (freshSlotId_retry _ _ _ _ _ _ Hgen Htaken).
  rewrite (freshSlotId_fuel fuel (List.length tape')) by lia.
  reflexivity.
Qed.

(** The loop only leaves with an id that is not stored. *)
Lemma freshSlotId_free fuel :
  ∀ rows tape slotId,
    freshSlotId fuel rows tape = Some slotId → select_slot slotId rows = None.
Proof.
  induction fuel as [|fuel IH]; intros rows tape slotId Hrun; [discriminate|].
  cbn [freshSlotId] in Hrun.
  destruct (generateSlotId tape) as [[candidate tape']|]; [|discriminate].
  destruct (select_slot candidate rows) eqn:Hslot.
  - now apply (IH rows tape').
  - now injection Hrun as <-.
Qed.

(** The INSERT of [createSlot] never meets a stored id: creation returns
    or runs out of readings, it does not throw. *)
Lemma createSlot_never_throws tape salt now password w w' :
  createSlot tape salt now password w ≠ (Thrown, w').
Proof.
  unfold createSlot.
  destruct (freshSlotId _ _ _) as [slotId|] eqn:Hfresh; [|discriminate].
  apply freshSlotId_free in Hfresh.
  rewrite bind_eq. unfold insert_slot. cbn [Slot.id]. rewrite Hfresh.
  discriminate.
Qed.

(** C8. When the readings of [Math.random()] lie in [0, 1), the
    identifier of a created slot is a string of 6, 7 or 8 characters, all
    of them decimal digits, and differs from the id of every slot stored
    at that moment; the slot is stored under it.  The retry loop is the
    one of the source: a candidate that is free is taken at once and the
    slot is returned; a candidate that collides with a stored slot is
    never the id of the result, and creation goes on exactly as it would
    have from the readings that remain; without readings for a candidate
    nothing is created.  The INSERT therefore never meets a stored id and
    creation never throws. *)
Theorem generated_identifiers tape salt now password w :
  Forall unit_interval tape →
  (∀ slot w',
      createSlot tape salt now password w = (Returned slot, w') →
      (String.length (Slot.id slot) = 6 ∨ String.length (Slot.id slot) = 7 ∨
       String.length (Slot.id slot) = 8)%nat ∧
      all_digits (Slot.id slot) = true ∧
      (∀ row, In row (slots w) → Slot.id row ≠ Slot.id slot) ∧
      select_slot (Slot.id slot) (slots w') = Some slot) ∧
  (∀ candidate tape',
      generateSlotId tape = Some (candidate, tape') →
      (select_slot candidate (slots w) = None →
       ∃ slot,
         createSlot tape salt now password w =
           (Returned slot, set_slots (slots w ++ [slot]) w) ∧
         Slot.id slot = candidate) ∧
      (∀ row,
          select_slot candidate (slots w) = Some row →
          createSlot tape salt now password w =
            createSlot tape' salt now password w ∧
          ∀ slot w',
            createSlot tape salt now password w = (Returned slot, w') →
            Slot.id slot ≠ candidate)) ∧
  (generateSlotId tape = None →
   createSlot tape salt now password w = (Starved, w)) ∧
  (∀ w', createSlot tape salt now password w ≠ (Thrown, w')).
Proof.
  intros Htape.
  assert (∀ slot w',
             createSlot tape salt now password w = (Returned slot, w') →
             select_slot (Slot.id slot) (slots w) = None ∧
             w' = set_slots (slots w ++ [slot]) w ∧
             (6 <= String.length (Slot.id slot) <= 8)%nat ∧
             all_digits (Slot.id slot) = true) as Hreturned.
  { intros slot w' Hcreate.
    destruct (createSlot_cases tape salt now password w)
      as [[_ Hr]|(slotId & Hfresh & Hfree & Hc)].
    { rewrite Hcreate in Hr. now destruct (Hr slot). }
    cbn zeta in Hc. rewrite Hc in Hcreate. injection Hcreate as <- <-.
    cbn [Slot.id].
    destruct (freshSlotId_spec _ _ _ _ Htape Hfresh) as (Hlen & Hdig & _).
    now repeat split. }
  split; [|split; [|split]].
  - intros slot w' Hcreate.
    destruct (Hreturned _ _ Hcreate) as (Hfree & -> & Hlen & Hdig).
    split; [lia|]. split; [exact Hdig|].
    split; [now apply select_slot_None|].
    cbn [set_slots slots].
    rewrite select_slot_inserted, Hfree. now rewrite String.eqb_refl.
  - intros candidate tape' Hgen. split.
    + intros Hfree.
      destruct (createSlot_first_free _ _ salt now password _ _ Hgen Hfree)
        as (slot & w' & Hcreate & Hid).
      exists slot. split; [|exact Hid].
      destruct (Hreturned _ _ Hcreate) as (_ & <- & _). exact Hcreate.
    + intros row Htaken. split.
      * exact (createSlot_retry _ _ _ _ _ _ _ _ Hgen Htaken).
      * intros slot w' Hcreate Hid.
        destruct (Hreturned _ _ Hcreate) as (Hfree & _).
        rewrite Hid in Hfree. congruence.
  - intros Hnone. unfold createSlot.
    destruct tape as [|r tape]; [reflexivity|].
    cbn [List.length freshSlotId]. now rewrite Hnone.
  - intros w'. apply createSlot_never_throws.
Qed.

(** ** The expiry instant *)

Ltac pass_check Hslot Hlive Hr :=
  unfold try_catch in Hr;
  rewrite bind_eq, getSlot_eq, Hslot in Hr; cbn beta iota in Hr;
  rewrite (gtb_le_false _ _ Hlive) in Hr;
  match type of Hr with
  | result_of (match ?c ?w with _ => _ end) = _ =>
      let Hc := fresh "Hc" in
      assert (answers (fun r => status r ≠ 410) c) as Hc
        by (answer; cbn; discriminate);
      specialize (Hc w);
      destruct (c w) as [[?| |] ?]; cbn in Hr;
      [ injection Hr as <-; now apply Hc
      | injection Hr as <-; cbn; discriminate
      | discriminate ]
  end.

Lemma live_not_expired now req slotId slot w r :
  target req = Some slotId →
  select_slot slotId (slots w) = Some slot →
  now <= Slot.expiresAt slot →
  result_of (handle now req w) = Returned (Some r) →
  status r ≠ 410.
Proof.
  intros Htarget Hslot Hlive Hr.
  destruct req; cbn [target] in Htarget; try discriminate;
    injection Htarget as ->; cbn [handle] in Hr; rewrite bind_eq in Hr.
  - unfold upload_route in Hr. rewrite bind_eq in Hr.
    cbn [multer_store] in Hr.
    match type of Hr with
    | context [post_upload _ _ _ _ _ ?w1] =>
        change (select_slot slotId (slots w1) = Some slot) in Hslot;
        destruct (post_upload now slotId password text uploaded w1)
          as [[r'| |] w2] eqn:Hh; cbn in Hr; try discriminate;
        injection Hr as <-;
        assert (result_of (post_upload now slotId password text uploaded w1)
                = Returned r') as Hr by now rewrite Hh
    end.
    clear Hh. unfold post_upload in Hr. pass_check Hslot Hlive Hr.
  - destruct (post_access now slotId password w) as [[r'| |] w2] eqn:Hh;
      cbn in Hr; try discriminate. injection Hr as <-.
    assert (result_of (post_access now slotId password w) = Returned r')
      as Hr by now rewrite Hh.
    clear Hh. unfold post_access in Hr. pass_check Hslot Hlive Hr.
  - destruct (get_download now slotId fileId password w) as [[r'| |] w2] eqn:Hh;
      cbn in Hr; try discriminate. injection Hr as <-.
    assert (result_of (get_download now slotId fileId password w) = Returned r')
      as Hr by now rewrite Hh.
    clear Hh. unfold get_download in Hr. pass_check Hslot Hlive Hr.
  - destruct (delete_slot now slotId password w) as [[r'| |] w2] eqn:Hh;
      cbn in Hr; try discriminate. injection Hr as <-.
    assert (result_of (delete_slot now slotId password w) = Returned r')
      as Hr by now rewrite Hh.
    clear Hh. unfold delete_slot in Hr. pass_check Hslot Hlive Hr.
Qed.

Ltac same_answer Hslot Hnow Hearlier :=
  unfold try_catch;
  do 2 rewrite (bind_eq (getSlot _));
  rewrite getSlot_eq, Hslot; cbn beta iota;
  rewrite (gtb_le_false _ _ Hnow), (gtb_le_false _ _ Hearlier);
  reflexivity.

(** While a slot is live the answer does not depend on the clock. *)
Lemma live_any_time now earlier req slotId slot w :
  target req = Some slotId →
  select_slot slotId (slots w) = Some slot →
  now <= Slot.expiresAt slot →
  earlier <= Slot.expiresAt slot →
  handle now req w = handle earlier req w.
Proof.
  intros Htarget Hslot Hnow Hearlier.
  assert (∀ c c' : M Response,
            c w = c' w →
            (r <- c ;; ret (Some r)) w = (r <- c' ;; ret (Some r)) w) as Hwrap.
  { intros c c' Heq. now rewrite !bind_eq, Heq. }
  destruct req; cbn [target] in Htarget; try discriminate;
    injection Htarget as ->; cbn [handle]; apply Hwrap.
  - unfold upload_route. do 2 rewrite (bind_eq (multer_store _)).
    cbn [multer_store].
    match goal with
    | |- post_upload _ _ _ _ _ ?w1 = _ =>
        change (select_slot slotId (slots w1) = Some slot) in Hslot
    end.
    unfold post_upload. same_answer Hslot Hnow Hearlier.
  - unfold post_access. same_answer Hslot Hnow Hearlier.
  - unfold get_download. same_answer Hslot Hnow Hearlier.
  - unfold delete_slot. same_answer Hslot Hnow Hearlier.
Qed.

(** C10. At the instant [now = expiresAt] the four request paths treat
    the slot as live: none of them answers 410, each answers as it would
    at any earlier instant, and an access with the right password is
    served the content.  At the same instant the sweep's query selects the
    slot and the cleanup job deletes it. *)
Theorem expiry_instant now slotId slot w :
  select_slot slotId (slots w) = Some slot →
  Slot.expiresAt slot = now →
  (∀ req r, target req = Some slotId →
            result_of (handle now req w) = Returned (Some r) →
            status r ≠ 410) ∧
  (∀ req earlier, target req = Some slotId → earlier <= now →
                  handle now req w = handle earlier req w) ∧
  (∀ password,
      valid_password slot password = true →
      post_access now slotId password w =
        (Returned
           (json_response
              (access_body slot (select_files slotId (files w))
                           (select_text slotId (text_contents w)))), w)) ∧
  (∃ rows, getExpiredSlots now w = (Returned rows, w) ∧ In slot rows) ∧
  (∃ w', cleanup_job now w = (Returned tt, w') ∧
         select_slot slotId (slots w') = None).
Proof.
  intros Hslot Hnow.
  destruct (select_slot_Some _ _ _ Hslot) as [Hin Hid].
  assert (In slot (List.filter (fun row => Slot.expiresAt row <=? now)
                               (slots w))) as Hselected.
  { apply filter_In. split; [exact Hin | apply Z.leb_le; lia]. }
  repeat split.
  - intros req r Htarget Hr.
    apply (live_not_expired now req slotId slot w r); auto; lia.
  - intros req earlier Htarget Hearlier.
    apply (live_any_time now earlier req slotId slot w); auto; lia.
  - intros password Hvalid. apply post_access_granted; auto; lia.
  - eexists. split; [reflexivity | exact Hselected].
  - eexists. split.
    + unfold cleanup_job, try_catch. now rewrite deleteExpiredSlots_eq.
    + rewrite <- Hid. now apply purge_all_drops.
Qed.

(** ** Wrong passwords outside the access route *)

(** On the upload, download and delete routes a wrong password is
    answered 401 and the state, [failedAttempts] included, is untouched. *)
Lemma wrong_password_not_counted now slotId password slot w :
  select_slot slotId (slots w) = Some slot →
  now <= Slot.expiresAt slot →
  valid_password slot password = false →
  (∀ text uploaded,
      post_upload now slotId password text uploaded w =
        (Returned (error_response 401 "Invalid password"), w)) ∧
  (∀ fileId,
      get_download now slotId fileId password w =
        (Returned (error_response 401 "Invalid password"), w)) ∧
  delete_slot now slotId password w =
    (Returned (error_response 401 "Invalid password"), w).
Proof.
  intros Hslot Hlive Hbad. repeat split; intros.
  - now apply (post_upload_rejected _ _ _ _ _ slot).
  - now apply (get_download_rejected _ _ _ _ slot).
  - now apply (delete_slot_rejected _ _ _ slot).
Qed.

(** * Further properties of the store and the routes *)

(** ** Computations that keep an invariant *)

Lemma preserves_ret {A} (I : World → Prop) (a : A) : preserves I (ret a).
Proof. intros w Hw. exact Hw. Qed.

Lemma preserves_bind {A B} (I : World → Prop) (c : M A) (k : A -> M B) :
  preserves I c → (∀ a, preserves I (k a)) → preserves I (bind c k).
Proof.
  intros Hc Hk w Hw. rewrite bind_eq. specialize (Hc w Hw).
  destruct (c w) as [[a| |] w1]; cbn [world_of snd] in *; try exact Hc.
  now apply Hk.
Qed.

Lemma preserves_try_catch {A} (I : World → Prop) (c handler : M A) :
  preserves I c → preserves I handler → preserves I (try_catch c handler).
Proof.
  intros Hc Hh w Hw. unfold try_catch. specialize (Hc w Hw).
  destruct (c w) as [[a| |] w1]; cbn [world_of snd] in *; try exact Hc.
  now apply Hh.
Qed.

Lemma preserves_for_each {A} (I : World → Prop) (xs : list A)
  (body : A -> M unit) :
  (∀ x, preserves I (body x)) → preserves I (for_each xs body).
Proof.
  intros Hbody. induction xs as [|x xs IH]; cbn [for_each].
  - apply preserves_ret.
  - apply preserves_bind; [apply Hbody | intros _; exact IH].
Qed.

(** An operation that only reads. *)
Lemma preserves_readonly {A} (I : World → Prop) (c : M A) :
  (∀ w, world_of (c w) = w) → preserves I c.
Proof. intros Hc w Hw. now rewrite Hc. Qed.

Lemma verifySlotPassword_readonly slotId password w :
  world_of (verifySlotPassword slotId password w) = w.
Proof.
  unfold verifySlotPassword. rewrite bind_eq, getSlot_eq.
  destruct (select_slot slotId (slots w)); [|reflexivity].
  now destruct (argon2_verify _ _).
Qed.

Lemma preserves_deleteSlot (I : World → Prop) slotId :
  (∀ w, I w → I (purge slotId w)) → preserves I (deleteSlot slotId).
Proof. intros H w Hw. rewrite deleteSlot_purge. now apply H. Qed.

Lemma preserves_incrementFailedAttempts (I : World → Prop) slotId :
  (∀ w, I w → I (counted slotId w)) →
  preserves I (incrementFailedAttempts slotId).
Proof. intros H w Hw. rewrite incrementFailedAttempts_eq. now apply H. Qed.

(** ** Lookups by key *)

Lemma select_slot_absent_iff slotId rows :
  select_slot slotId rows = None ↔ ¬ In slotId (List.map Slot.id rows).
Proof.
  rewrite select_slot_None, in_map_iff. split.
  - intros H (row & Hid & Hin). now apply (H row).
  - intros H row Hin Hid. apply H. now exists row.
Qed.

Lemma select_file_Some fileId rows file :
  select_file fileId rows = Some file → In file rows ∧ File.id file = fileId.
Proof.
  unfold select_file. intros H. apply find_some in H as [Hin Heq].
  split; [exact Hin | now apply String.eqb_eq].
Qed.

Lemma select_file_absent_iff fileId rows :
  select_file fileId rows = None ↔ ¬ In fileId (List.map File.id rows).
Proof.
  unfold select_file. rewrite in_map_iff. split.
  - intros H (row & Hid & Hin).
    pose proof (find_none _ _ H row Hin) as Hf. cbn in Hf.
    apply String.eqb_neq in Hf. contradiction.
  - intros H. destruct (find _ rows) as [row|] eqn:Hfind; [|reflexivity].
    apply find_some in Hfind as [Hin Heq]. apply String.eqb_eq in Heq.
    exfalso. apply H. now exists row.
Qed.

Lemma select_file_inserted fileId rows file :
  select_file fileId (rows ++ [file]) =
  match select_file fileId rows with
  | Some row => Some row
  | None => if String.eqb (File.id file) fileId then Some file else None
  end.
Proof.
  unfold select_file. induction rows as [|row rows IH]; [reflexivity|].
  cbn [app find]. now destruct (String.eqb (File.id row) fileId).
Qed.

Lemma select_files_inserted slotId rows file :
  select_files slotId (rows ++ [file]) =
  (select_files slotId rows ++
   if String.eqb (File.slotId file) slotId then [file] else [])%list.
Proof. unfold select_files. now rewrite List.filter_app. Qed.

Lemma select_files_removed slotId slotId' rows :
  select_files slotId
    (List.filter (fun row => negb (String.eqb (File.slotId row) slotId')) rows) =
  if String.eqb slotId slotId' then [] else select_files slotId rows.
Proof.
  unfold select_files. induction rows as [|row rows IH]; cbn [List.filter].
  - now destruct (String.eqb slotId slotId').
  - destruct (String.eqb_spec (File.slotId row) slotId') as [E1|E1];
      cbn [negb List.filter].
    + rewrite IH. destruct (String.eqb_spec slotId slotId') as [E2|E2];
        [reflexivity|].
      destruct (String.eqb_spec (File.slotId row) slotId); [congruence|].
      reflexivity.
    + destruct (String.eqb_spec (File.slotId row) slotId) as [E3|E3].
      * destruct (String.eqb_spec slotId slotId'); [congruence|].
        now rewrite <- IH.
      * exact IH.
Qed.

Lemma select_text_removed slotId slotId' rows :
  select_text slotId
    (List.filter (fun row => negb (String.eqb (TextContent.slotId row) slotId'))
                 rows) =
  if String.eqb slotId slotId' then None else select_text slotId rows.
Proof.
  unfold select_text. induction rows as [|row rows IH]; cbn [List.filter find].
  - now destruct (String.eqb slotId slotId').
  - destruct (String.eqb_spec (TextContent.slotId row) slotId') as [E1|E1];
      cbn [negb find].
    + rewrite IH. destruct (String.eqb_spec slotId slotId') as [E2|E2];
        [reflexivity|].
      destruct (String.eqb_spec (TextContent.slotId row) slotId); [congruence|].
      reflexivity.
    + destruct (String.eqb_spec (TextContent.slotId row) slotId) as [E3|E3];
        [|exact IH].
      destruct (String.eqb_spec slotId slotId'); [congruence|]. reflexivity.
Qed.

Lemma select_text_inserted slotId rows text :
  select_text slotId (rows ++ [text]) =
  match select_text slotId rows with
  | Some row => Some row
  | None =>
      if String.eqb (TextContent.slotId text) slotId then Some text else None
  end.
Proof.
  unfold select_text. induction rows as [|row rows IH]; [reflexivity|].
  cbn [app find]. now destruct (String.eqb (TextContent.slotId row) slotId).
Qed.

Lemma NoDup_map_filter {A B} (f : A → B) (p : A → bool) (l : list A) :
  List.NoDup (List.map f l) → List.NoDup (List.map f (List.filter p l)).
Proof.
  clear argon2_hash argon2_verify trim.
  induction l as [|x l IH]; [trivial|]. cbn [List.map List.filter].
  intros Hnd. apply List.NoDup_cons_iff in Hnd as [Hx Hl].
  destruct (p x); [|now apply IH]. cbn [List.map]. apply List.NoDup_cons_iff.
  split; [|now apply IH].
  intros Hin. apply Hx. apply in_map_iff in Hin as (y & Hy & Hin).
  apply filter_In in Hin as [Hin _]. apply in_map_iff. now exists y.
Qed.

Lemma NoDup_map_snoc {A B} (f : A → B) (l : list A) (x : A) :
  List.NoDup (List.map f l) → ¬ In (f x) (List.map f l) →
  List.NoDup (List.map f (l ++ [x])).
Proof.
  clear argon2_hash argon2_verify trim.
  intros Hnd Hx. rewrite map_app. cbn [List.map].
  apply List.NoDup_app; [exact Hnd | |].
  - apply List.NoDup_cons; [intros [] | apply List.NoDup_nil].
  - intros y Hy [<-|[]]. contradiction.
Qed.

(** ** The store keeps its keys, its references and its lifetimes *)

Lemma store_invariant_purge slotId w :
  store_invariant w → store_invariant (purge slotId w).
Proof.
  intros ((Hs & Hf & Ht) & (Hfr & Htr) & Hlife).
  split; [|split].
  - cbn [purge]. repeat split; cbn [slots files text_contents];
      now apply NoDup_map_filter.
  - split; cbn [purge slots files text_contents].
    + intros file Hin. apply filter_In in Hin as [Hin Hne].
      rewrite select_slot_removed.
      destruct (String.eqb (File.slotId file) slotId); [discriminate|].
      now apply Hfr.
    + intros text Hin. apply filter_In in Hin as [Hin Hne].
      rewrite select_slot_removed.
      destruct (String.eqb (TextContent.slotId text) slotId); [discriminate|].
      now apply Htr.
  - intros slot Hin. cbn [purge slots] in Hin.
    apply filter_In in Hin as [Hin _]. now apply Hlife.
Qed.

Lemma bumped_ids slotId rows :
  List.map Slot.id (List.map (bump slotId) rows) = List.map Slot.id rows.
Proof. rewrite map_map. apply map_ext. intros row. apply bump_id. Qed.

Lemma store_invariant_counted slotId w :
  store_invariant w → store_invariant (counted slotId w).
Proof.
  intros ((Hs & Hf & Ht) & (Hfr & Htr) & Hlife).
  split; [|split].
  - repeat split; cbn [counted set_slots slots files text_contents];
      [now rewrite bumped_ids | exact Hf | exact Ht].
  - split; cbn [counted set_slots slots files text_contents].
    + intros file Hin. rewrite select_slot_bumped.
      specialize (Hfr file Hin).
      now destruct (select_slot (File.slotId file) (slots w)).
    + intros text Hin. rewrite select_slot_bumped.
      specialize (Htr text Hin).
      now destruct (select_slot (TextContent.slotId text) (slots w)).
  - intros slot Hin. cbn [counted set_slots slots] in Hin.
    apply in_map_iff in Hin as (row & <- & Hin).
    destruct (bump_fields slotId row) as (_ & _ & -> & -> & _).
    now apply Hlife.
Qed.

Lemma store_invariant_addFile file : preserves store_invariant (addFile file).
Proof.
  intros w Hw. unfold addFile.
  destruct (select_file (File.id file) (files w)) eqn:Hfresh; [exact Hw|].
  destruct (select_slot (File.slotId file) (slots w)) eqn:Hslot; [|exact Hw].
  destruct Hw as ((Hs & Hf & Ht) & (Hfr & Htr) & Hlife).
  cbn [world_of snd]. split; [|split].
  - repeat split; cbn [set_files slots files text_contents];
      [exact Hs | | exact Ht].
    apply NoDup_map_snoc; [exact Hf | now apply select_file_absent_iff].
  - split; cbn [set_files slots files text_contents]; [|exact Htr].
    intros row Hin. apply in_app_or in Hin as [Hin|[<-|[]]];
      [now apply Hfr | congruence].
  - exact Hlife.
Qed.

Lemma store_invariant_addTextContent textContent :
  preserves store_invariant (addTextContent textContent).
Proof.
  intros w Hw. unfold addTextContent.
  destruct (select_slot (TextContent.slotId textContent) (slots w)) eqn:Hslot;
    [|exact Hw].
  destruct Hw as ((Hs & Hf & Ht) & (Hfr & Htr) & Hlife).
  cbn [world_of snd]. split; [|split].
  - repeat split; cbn [set_text_contents slots files text_contents];
      [exact Hs | exact Hf |].
    apply NoDup_map_snoc; [now apply NoDup_map_filter|].
    intros Hin. apply in_map_iff in Hin as (row & Hid & Hin).
    apply filter_In in Hin as [_ Hne]. rewrite Hid, String.eqb_refl in Hne.
    discriminate.
  - split; cbn [set_text_contents slots files text_contents]; [exact Hfr|].
    intros row Hin. apply in_app_or in Hin as [Hin|[<-|[]]]; [|congruence].
    apply filter_In in Hin as [Hin _]. now apply Htr.
  - exact Hlife.
Qed.

Lemma store_invariant_createSlot tape salt now password :
  preserves store_invariant (createSlot tape salt now password).
Proof.
  intros w Hw.
  destruct (createSlot_cases tape salt now password w)
    as [[-> _]|(slotId & _ & Hfree & Hc)]; [exact Hw|].
  cbn zeta in Hc. rewrite Hc. cbn [world_of snd].
  destruct Hw as ((Hs & Hf & Ht) & (Hfr & Htr) & Hlife).
  split; [|split].
  - repeat split; cbn [set_slots slots files text_contents];
      [ | exact Hf | exact Ht].
    apply NoDup_map_snoc; [exact Hs | now apply select_slot_absent_iff].
  - split; cbn [set_slots slots files text_contents].
    + intros file Hin. rewrite select_slot_inserted.
      specialize (Hfr file Hin).
      now destruct (select_slot (File.slotId file) (slots w)).
    + intros text Hin. rewrite select_slot_inserted.
      specialize (Htr text Hin).
      now destruct (select_slot (TextContent.slotId text) (slots w)).
  - intros slot Hin. cbn [set_slots slots] in Hin.
    apply in_app_or in Hin as [Hin|[<-|[]]]; [now apply Hlife|].
    cbn. lia.
Qed.

Lemma store_invariant_multer_store uploaded :
  preserves store_invariant (multer_store uploaded).
Proof. intros w Hw. exact Hw. Qed.

Ltac keep_invariant :=
  repeat first
    [ apply preserves_ret
    | apply preserves_deleteSlot; apply store_invariant_purge
    | apply preserves_incrementFailedAttempts; apply store_invariant_counted
    | apply preserves_readonly; apply verifySlotPassword_readonly
    | apply preserves_try_catch
    | apply preserves_bind; [|intros ?]
    | apply preserves_for_each; intros ?
    | apply store_invariant_addFile
    | apply store_invariant_addTextContent
    | apply store_invariant_createSlot
    | apply store_invariant_multer_store
    | apply preserves_readonly; apply verifySlotPassword_readonly
    | solve [apply preserves_readonly; intros ?; reflexivity]
    | match goal with
      | |- preserves _ (match ?x with _ => _ end) => destruct x
      end ].

Lemma handle_store_invariant now req :
  preserves store_invariant (handle now req).
Proof.
  destruct req; cbn [handle];
    unfold post_slot, upload_route, post_upload, post_access, get_download,
           delete_slot, cleanup_job, deleteExpiredSlots;
    keep_invariant.
Qed.

Lemma run_preserves (I : World → Prop) :
  (∀ now req, preserves I (handle now req)) →
  ∀ events w, I w → I (snd (run events w)).
Proof.
  intros Hstep events. induction events as [|[now req] events IH];
    intros w Hw; [exact Hw|].
  cbn [run]. specialize (Hstep now req w Hw).
  destruct (handle now req w) as [r w1]. specialize (IH w1 Hstep).
  now destruct (run events w1) as [rs w2].
Qed.

Lemma initial_store_invariant : store_invariant initial_world.
Proof.
  split; [|split].
  - repeat split; apply List.NoDup_nil.
  - split; intros x [].
  - intros x [].
Qed.

(** X3. In every state the server reaches from the empty store, no two
    slots share an id, no two file records share an id, and no slot has
    two text records. *)
Theorem reachable_keys_unique events :
  keys_unique (snd (run events initial_world)).
Proof.
  apply (run_preserves store_invariant handle_store_invariant events
           initial_world initial_store_invariant).
Qed.

(** X4. In every state the server reaches from the empty store, every
    file record and every text record belongs to a slot that is still
    stored: deleting a slot never leaves rows of it behind, and no row is
    ever registered for a slot that is not there. *)
Theorem reachable_references_resolve events :
  references_resolve (snd (run events initial_world)).
Proof.
  apply (run_preserves store_invariant handle_store_invariant events
           initial_world initial_store_invariant).
Qed.

(** X5. In every state the server reaches from the empty store, every
    stored slot still has [expiresAt = createdAt + 24h]. *)
Theorem reachable_lifetimes_fixed events :
  lifetimes_fixed (snd (run events initial_world)).
Proof.
  apply (run_preserves store_invariant handle_store_invariant events
           initial_world initial_store_invariant).
Qed.

(** ** A request on one slot leaves the other slots alone *)

Lemma same_records_refl slotId w : same_records slotId w w.
Proof. now repeat split. Qed.

Lemma same_records_purge other slotId w0 w :
  slotId ≠ other →
  same_records other w0 w → same_records other w0 (purge slotId w).
Proof.
  intros Hne (Hs & Hf & Ht). unfold same_records.
  cbn [purge slots files text_contents].
  rewrite select_slot_removed, select_files_removed, select_text_removed.
  destruct (String.eqb_spec other slotId); [congruence|]. now repeat split.
Qed.

Lemma same_records_counted other slotId w0 w :
  slotId ≠ other →
  same_records other w0 w → same_records other w0 (counted slotId w).
Proof.
  intros Hne (Hs & Hf & Ht). unfold same_records.
  cbn [counted set_slots slots files text_contents].
  repeat split; [|exact Hf | exact Ht].
  rewrite select_slot_bumped, <- Hs.
  destruct (select_slot other (slots w)) as [row|] eqn:Hrow; [|reflexivity].
  destruct (select_slot_Some _ _ _ Hrow) as [_ Hid].
  cbn [option_map]. rewrite bump_other by congruence. reflexivity.
Qed.

Lemma same_records_addFile other w0 file :
  File.slotId file ≠ other →
  preserves (same_records other w0) (addFile file).
Proof.
  intros Hne w (Hs & Hf & Ht). unfold addFile.
  destruct (select_file _ _); [now repeat split|].
  destruct (select_slot (File.slotId file) _); [|now repeat split].
  unfold same_records. cbn [world_of snd set_files slots files text_contents].
  rewrite select_files_inserted.
  destruct (String.eqb_spec (File.slotId file) other); [congruence|].
  rewrite app_nil_r. now repeat split.
Qed.

Lemma same_records_addTextContent other w0 textContent :
  TextContent.slotId textContent ≠ other →
  preserves (same_records other w0) (addTextContent textContent).
Proof.
  intros Hne w (Hs & Hf & Ht). unfold addTextContent.
  destruct (select_slot (TextContent.slotId textContent) (slots w));
    [|now repeat split].
  unfold same_records.
  cbn [world_of snd set_text_contents slots files text_contents].
  rewrite select_text_inserted, select_text_removed.
  destruct (String.eqb_spec other (TextContent.slotId textContent));
    [congruence|].
  destruct (String.eqb_spec (TextContent.slotId textContent) other);
    [congruence|].
  repeat split; try assumption. rewrite <- Ht.
  now destruct (select_text other (text_contents w)).
Qed.

Lemma file_record_slotId slotId upload :
  File.slotId (file_record slotId upload) = slotId.
Proof. now destruct upload as [[file id] uploadedAt]. Qed.

Ltac keep_records Hne :=
  repeat first
    [ apply preserves_ret
    | apply preserves_deleteSlot; intros ?; apply same_records_purge; exact Hne
    | apply preserves_incrementFailedAttempts; intros ?;
      apply same_records_counted; exact Hne
    | apply preserves_readonly; apply verifySlotPassword_readonly
    | apply preserves_try_catch
    | apply preserves_bind; [|intros ?]
    | apply preserves_for_each; intros ?
    | apply same_records_addFile; rewrite file_record_slotId; exact Hne
    | apply same_records_addTextContent; exact Hne
    | solve [apply preserves_readonly; intros ?; reflexivity]
    | match goal with
      | |- preserves _ (match ?x with _ => _ end) => destruct x
      end ].

(** X6. A request addressed to one slot never changes another slot:
    the row, the file records and the text record of every other slot are
    after the request what they were before it. *)
Theorem other_slots_untouched now req slotId other w :
  target req = Some slotId →
  slotId ≠ other →
  same_records other w (world_of (handle now req w)).
Proof.
  intros Htarget Hne.
  assert (preserves (same_records other w) (handle now req)) as Hkeep.
  { destruct req; cbn [target] in Htarget; try discriminate;
      injection Htarget as ->; cbn [handle];
      unfold upload_route, post_upload, post_access, get_download, delete_slot.
    - apply preserves_bind; [|intros ?].
      { apply preserves_bind; [now intros w1 Hw1|intros _]. keep_records Hne. }
      apply preserves_ret.
    - keep_records Hne.
    - keep_records Hne.
    - keep_records Hne. }
  apply Hkeep, same_records_refl.
Qed.

(** ** Nothing is granted without the password *)

Lemma handle_upload_eq now slotId password text uploaded w :
  handle now (Upload slotId password text uploaded) w =
  (r <- post_upload now slotId password text uploaded ;; ret (Some r))
    (received (Upload slotId password text uploaded) w).
Proof.
  cbn [handle received]. unfold upload_route. now rewrite !bind_eq.
Qed.

(** X7. A request addressed to a slot is answered with status 200 only
    if the slot is stored, has not expired, and the password of the
    request verifies against the stored hash. *)
Theorem success_needs_valid_password now req slotId password w r :
  target req = Some slotId →
  credential req = Some password →
  result_of (handle now req w) = Returned (Some r) →
  status r = 200 →
  ∃ slot,
    select_slot slotId (slots w) = Some slot ∧
    now <= Slot.expiresAt slot ∧
    valid_password slot password = true.
Proof.
  intros Htarget Hcred Hr Hok.
  destruct (select_slot slotId (slots w)) as [slot|] eqn:Hslot.
  - exists slot. split; [reflexivity|].
    destruct (Z.lt_ge_cases (Slot.expiresAt slot) now) as [Hlate|Hlive].
    { rewrite (handle_expired _ _ _ _ _ Htarget Hslot Hlate) in Hr.
      injection Hr as <-. discriminate. }
    split; [exact Hlive|].
    destruct (valid_password slot password) eqn:Hvalid; [reflexivity|].
    exfalso.
    destruct req; cbn [target credential] in Htarget, Hcred;
      try discriminate; injection Htarget as ->; injection Hcred as ->.
    + rewrite handle_upload_eq, bind_eq in Hr.
      rewrite <- (received_slots (Upload slotId password text uploaded))
        in Hslot.
      rewrite (post_upload_rejected _ _ _ _ _ _ _ Hslot Hlive Hvalid) in Hr.
      injection Hr as <-. discriminate.
    + cbn [handle] in Hr. rewrite bind_eq in Hr.
      destruct (Z.lt_ge_cases (Slot.failedAttempts slot + 1) 3) as [Hfew|Hmany].
      * rewrite (post_access_rejected _ _ _ _ _ Hslot Hlive Hvalid Hfew) in Hr.
        injection Hr as <-. discriminate.
      * rewrite (post_access_locked _ _ _ _ _ Hslot Hlive Hvalid Hmany) in Hr.
        injection Hr as <-. discriminate.
    + cbn [handle] in Hr. rewrite bind_eq in Hr.
      rewrite (get_download_rejected _ _ _ _ _ _ Hslot Hlive Hvalid) in Hr.
      injection Hr as <-. discriminate.
    + cbn [handle] in Hr. rewrite bind_eq in Hr.
      rewrite (delete_slot_rejected _ _ _ _ _ Hslot Hlive Hvalid) in Hr.
      injection Hr as <-. discriminate.
  - rewrite (handle_target_absent _ _ _ _ Htarget Hslot) in Hr.
    injection Hr as <-. discriminate.
Qed.

(** ** Downloads *)

Lemma get_download_granted now slotId fileId password slot w :
  select_slot slotId (slots w) = Some slot →
  now <= Slot.expiresAt slot →
  valid_password slot password = true →
  get_download now slotId fileId password w =
  (Returned
     match select_file fileId (files w) with
     | None => error_response 404 "File not found"
     | Some file =>
         if negb (String.eqb (File.slotId file) slotId)
         then error_response 404 "File not found"
         else if negb (bool_decide (file_path file ∈ uploads w))
         then error_response 404 "File not found on disk"
         else {| status := 200;
                 body := DownloadBody (file_path file)
                           (File.originalName file) |}
     end, w).
Proof.
  intros Hslot Hlive Hgood. unfold get_download. enter_live Hslot Hlive.
  rewrite Hgood. cbn [negb]. rewrite bind_eq. unfold getFile at 1.
  destruct (select_file fileId (files w)) as [file|]; [|reflexivity].
  destruct (negb (String.eqb (File.slotId file) slotId)); [reflexivity|].
  rewrite bind_eq. unfold existsSync at 1. fold (file_path file).
  now destruct (negb (bool_decide (file_path file ∈ uploads w))).
Qed.

(** X8. A download is answered with status 200 only for a file record of
    the requested slot whose blob is on disk, with the right password and
    before expiry; it then names the stored path and the original file
    name, and changes nothing.  A file id of another slot is never
    served. *)
Theorem download_serves_own_files now slotId fileId password w r :
  result_of (get_download now slotId fileId password w) = Returned r →
  status r = 200 →
  ∃ slot file,
    select_slot slotId (slots w) = Some slot ∧
    now <= Slot.expiresAt slot ∧
    valid_password slot password = true ∧
    select_file fileId (files w) = Some file ∧
    File.slotId file = slotId ∧
    file_path file ∈ uploads w ∧
    body r = DownloadBody (file_path file) (File.originalName file) ∧
    world_of (get_download now slotId fileId password w) = w.
Proof.
  intros Hr Hok.
  destruct (select_slot slotId (slots w)) as [slot|] eqn:Hslot.
  2:{ rewrite (get_download_absent _ _ _ _ _ Hslot) in Hr.
      injection Hr as <-. discriminate. }
  destruct (Z.lt_ge_cases (Slot.expiresAt slot) now) as [Hlate|Hlive].
  { rewrite (get_download_expired _ _ _ _ _ _ Hslot Hlate) in Hr.
    injection Hr as <-. discriminate. }
  destruct (valid_password slot password) eqn:Hvalid.
  2:{ rewrite (get_download_rejected _ _ _ _ _ _ Hslot Hlive Hvalid) in Hr.
      injection Hr as <-. discriminate. }
  rewrite (get_download_granted _ _ _ _ _ _ Hslot Hlive Hvalid) in Hr |- *.
  cbn [result_of world_of fst snd] in Hr |- *. injection Hr as <-.
  destruct (select_file fileId (files w)) as [file|]; [|discriminate].
  destruct (String.eqb_spec (File.slotId file) slotId) as [Hown|];
    cbn [negb] in Hok |- *; [|discriminate].
  destruct (bool_decide (file_path file ∈ uploads w)) eqn:Hdisk;
    cbn [negb] in Hok |- *; [|discriminate].
  apply bool_decide_eq_true in Hdisk.
  exists slot, file. now repeat split.
Qed.

(** ** Uploads *)

Lemma file_record_id slotId upload :
  File.id (file_record slotId upload) = snd (fst upload).
Proof. now destruct upload as [[file id] uploadedAt]. Qed.

Lemma file_record_path slotId upload :
  file_path (file_record slotId upload) =
  path_join UPLOADS_DIR (MulterFile.filename (fst (fst upload))).
Proof. now destruct upload as [[file id] uploadedAt]. Qed.

Lemma select_file_app fileId rows rows' :
  select_file fileId (rows ++ rows') =
  match select_file fileId rows with
  | Some row => Some row
  | None => select_file fileId rows'
  end.
Proof.
  unfold select_file. induction rows as [|row rows IH]; [reflexivity|].
  cbn [app find]. now destruct (String.eqb (File.id row) fileId).
Qed.

Lemma select_files_app slotId rows rows' :
  select_files slotId (rows ++ rows') =
  (select_files slotId rows ++ select_files slotId rows')%list.
Proof. unfold select_files. apply List.filter_app. Qed.

Lemma select_files_uploaded slotId uploaded :
  select_files slotId (List.map (file_record slotId) uploaded) =
  List.map (file_record slotId) uploaded.
Proof.
  unfold select_files. induction uploaded as [|upload uploaded IH];
    [reflexivity|].
  cbn [List.map List.filter].
  now rewrite file_record_slotId, String.eqb_refl, IH.
Qed.

Lemma select_file_uploaded slotId uploaded upload :
  List.NoDup (List.map (fun upload => snd (fst upload)) uploaded) →
  In upload uploaded →
  select_file (snd (fst upload)) (List.map (file_record slotId) uploaded) =
  Some (file_record slotId upload).
Proof.
  unfold select_file. induction uploaded as [|first uploaded IH];
    intros Hnd Hin; [destruct Hin|].
  cbn [List.map] in Hnd. apply List.NoDup_cons_iff in Hnd as [Hfirst Hnd].
  cbn [List.map find]. rewrite file_record_id. destruct Hin as [->|Hin].
  - now rewrite String.eqb_refl.
  - destruct (String.eqb_spec (snd (fst first)) (snd (fst upload))) as [E|E].
    + exfalso. apply Hfirst. rewrite E.
      now apply (in_map (fun upload => snd (fst upload))).
    + now apply IH.
Qed.

(** The loop of the upload handler registers every file, in order, when
    the ids it was given are new and distinct. *)
Lemma for_each_addFile slotId uploaded :
  ∀ w slot,
    select_slot slotId (slots w) = Some slot →
    List.NoDup (List.map (fun upload => snd (fst upload)) uploaded) →
    (∀ upload, In upload uploaded →
               select_file (snd (fst upload)) (files w) = None) →
    for_each uploaded (fun upload => addFile (file_record slotId upload)) w =
    (Returned tt,
     set_files (files w ++ List.map (file_record slotId) uploaded) w).
Proof.
  induction uploaded as [|first uploaded IH]; intros w slot Hslot Hnd Hfresh.
  - cbn [for_each List.map]. unfold ret, set_files. rewrite app_nil_r.
    now destruct w.
  - cbn [List.map] in Hnd. apply List.NoDup_cons_iff in Hnd as [Hfirst Hnd].
    cbn [for_each]. rewrite bind_eq. unfold addFile at 1.
    rewrite file_record_id, file_record_slotId, Hslot.
    rewrite (Hfresh first) by now left.
    rewrite (IH _ slot); [| exact Hslot | exact Hnd |].
    + cbn [List.map]. unfold set_files. cbn [slots files text_contents uploads].
      now rewrite <- app_assoc.
    + intros upload Hin. cbn [set_files files].
      rewrite select_file_inserted, (Hfresh upload) by now right.
      rewrite file_record_id.
      destruct (String.eqb_spec (snd (fst first)) (snd (fst upload))) as [E|E];
        [|reflexivity].
      exfalso. apply Hfirst. rewrite E.
      now apply (in_map (fun upload => snd (fst upload))).
Qed.

Lemma select_text_after_upload slotId text rows :
  select_text slotId (text_after_upload slotId text rows) =
  if has_text text
  then Some {| TextContent.slotId := slotId;
               TextContent.content := default "" text |}
  else select_text slotId rows.
Proof.
  unfold text_after_upload. destruct (has_text text); [|reflexivity].
  rewrite select_text_inserted, select_text_removed, String.eqb_refl.
  cbn [TextContent.slotId]. now rewrite String.eqb_refl.
Qed.

Lemma post_upload_granted now slotId password text uploaded slot w :
  select_slot slotId (slots w) = Some slot →
  now <= Slot.expiresAt slot →
  valid_password slot password = true →
  List.NoDup (List.map (fun upload => snd (fst upload)) uploaded) →
  (∀ upload, In upload uploaded →
             select_file (snd (fst upload)) (files w) = None) →
  post_upload now slotId password text uploaded w =
  (Returned success_response,
   {| slots := slots w;
      files := files w ++ List.map (file_record slotId) uploaded;
      text_contents := text_after_upload slotId text (text_contents w);
      uploads := uploads w |}).
Proof.
  intros Hslot Hlive Hgood Hnd Hfresh. unfold post_upload.
  enter_live Hslot Hlive. rewrite Hgood. cbn [negb].
  rewrite bind_eq, (for_each_addFile _ _ _ slot Hslot Hnd Hfresh).
  rewrite bind_eq. unfold text_after_upload.
  destruct (has_text text); [|reflexivity].
  unfold addTextContent. cbn [TextContent.slotId set_files slots].
  now rewrite Hslot.
Qed.

(** X9. An upload with the right password to a live slot, whose file ids
    are new and distinct, is answered with success; it appends one file
    record per file, in order, replaces the text record when the text is
    not blank, and leaves the slot row alone.  Until the slot expires, an
    access with the password then lists the old and the new files and the
    text, and each uploaded file can be downloaded under its original
    name. *)
Theorem upload_then_read_back now slotId password text uploaded slot w :
  select_slot slotId (slots w) = Some slot →
  now <= Slot.expiresAt slot →
  valid_password slot password = true →
  List.NoDup (List.map (fun upload => snd (fst upload)) uploaded) →
  (∀ upload, In upload uploaded →
             select_file (snd (fst upload)) (files w) = None) →
  ∃ w',
    upload_route now slotId password text uploaded w =
      (Returned success_response, w') ∧
    slots w' = slots w ∧
    files w' = (files w ++ List.map (file_record slotId) uploaded)%list ∧
    text_contents w' = text_after_upload slotId text (text_contents w) ∧
    (∀ later, later <= Slot.expiresAt slot →
       post_access later slotId password w' =
         (Returned
            (json_response
               (access_body slot
                  (select_files slotId (files w)
                   ++ List.map (file_record slotId) uploaded)
                  (if has_text text
                   then Some {| TextContent.slotId := slotId;
                                TextContent.content := default "" text |}
                   else select_text slotId (text_contents w)))), w')) ∧
    (∀ later upload, later <= Slot.expiresAt slot → In upload uploaded →
       get_download later slotId (snd (fst upload)) password w' =
         (Returned
            {| status := 200;
               body := DownloadBody
                         (file_path (file_record slotId upload))
                         (MulterFile.originalname (fst (fst upload))) |},
          w')).
Proof.
  intros Hslot Hlive Hgood Hnd Hfresh.
  unfold upload_route. rewrite bind_eq. cbn [multer_store].
  match goal with
  | |- ∃ _, post_upload _ _ _ _ _ ?w1 = _ ∧ _ =>
      assert (post_upload now slotId password text uploaded w1 =
              (Returned success_response,
               {| slots := slots w1;
                  files := files w1 ++ List.map (file_record slotId) uploaded;
                  text_contents :=
                    text_after_upload slotId text (text_contents w1);
                  uploads := uploads w1 |})) as Hpost
        by (apply (post_upload_granted _ _ _ _ _ slot); assumption)
  end.
  cbn [slots files text_contents uploads] in Hpost.
  eexists. split; [exact Hpost|].
  cbn [slots files text_contents uploads].
  split; [reflexivity|]. split; [reflexivity|]. split; [reflexivity|]. split.
  - intros later Hlater.
    erewrite post_access_granted; [| exact Hslot | exact Hlater | exact Hgood].
    cbn [files text_contents].
    now rewrite select_files_app, select_files_uploaded,
      select_text_after_upload.
  - intros later upload Hlater Hin.
    erewrite get_download_granted; [| exact Hslot | exact Hlater | exact Hgood].
    cbn [files uploads].
    rewrite select_file_app, (Hfresh upload Hin),
      (select_file_uploaded _ _ _ Hnd Hin).
    rewrite file_record_slotId, String.eqb_refl. cbn [negb].
    rewrite bool_decide_eq_true_2.
    + cbn [negb]. now destruct upload as [[file id] uploadedAt].
    + apply elem_of_union_r, elem_of_list_to_set, list_elem_of_In.
      rewrite file_record_path.
      now apply (in_map (fun upload =>
                           path_join UPLOADS_DIR
                             (MulterFile.filename (fst (fst upload))))).
Qed.

(** ** The storage operations one by one *)

(** X12. [addTextContent] is an upsert: for a stored slot it returns
    normally and leaves exactly one text row for that slot, the new one,
    whatever was there before, and the text of every other slot is as
    before; for a slot that is not stored it throws and changes
    nothing. *)
Theorem addTextContent_upsert textContent w :
  (select_slot (TextContent.slotId textContent) (slots w) ≠ None →
   ∃ w',
     addTextContent textContent w = (Returned tt, w') ∧
     select_text (TextContent.slotId textContent) (text_contents w') =
       Some textContent ∧
     List.filter
       (fun row => String.eqb (TextContent.slotId row)
                              (TextContent.slotId textContent))
       (text_contents w') = [textContent] ∧
     (∀ other, other ≠ TextContent.slotId textContent →
               select_text other (text_contents w') =
               select_text other (text_contents w)) ∧
     slots w' = slots w ∧ files w' = files w) ∧
  (select_slot (TextContent.slotId textContent) (slots w) = None →
   addTextContent textContent w = (Thrown, w)).
Proof.
  unfold addTextContent. split.
  - intros Hslot.
    destruct (select_slot (TextContent.slotId textContent) (slots w));
      [|congruence].
    eexists. split; [reflexivity|].
    cbn [set_text_contents slots files text_contents]. repeat split.
    + rewrite select_text_inserted, select_text_removed.
      now rewrite !String.eqb_refl.
    + rewrite List.filter_app. cbn [List.filter].
      rewrite String.eqb_refl.
      replace (List.filter _ (List.filter _ (text_contents w))) with
        (@nil TextContent.t); [reflexivity|].
      induction (text_contents w) as [|row rows IH]; [reflexivity|].
      cbn [List.filter].
      destruct (String.eqb (TextContent.slotId row)
                           (TextContent.slotId textContent)) eqn:E;
        cbn [negb List.filter]; [exact IH|]. now rewrite E.
    + intros other Hother.
      rewrite select_text_inserted, select_text_removed.
      destruct (String.eqb_spec other (TextContent.slotId textContent));
        [congruence|].
      destruct (String.eqb_spec (TextContent.slotId textContent) other);
        [congruence|].
      now destruct (select_text other (text_contents w)).
  - now intros ->.
Qed.

(** X13. [addFile] registers a record exactly when its id is new and its
    slot is stored: it is then found by [getFile] under its id and is the
    last of the files of its slot, and the lookup of every other id is
    unchanged.  Otherwise the INSERT throws and nothing changes. *)
Theorem addFile_registers file w :
  (select_file (File.id file) (files w) = None →
   select_slot (File.slotId file) (slots w) ≠ None →
   ∃ w',
     addFile file w = (Returned tt, w') ∧
     select_file (File.id file) (files w') = Some file ∧
     select_files (File.slotId file) (files w') =
       (select_files (File.slotId file) (files w) ++ [file])%list ∧
     (∀ other, other ≠ File.id file →
               select_file other (files w') = select_file other (files w)) ∧
     slots w' = slots w ∧ text_contents w' = text_contents w) ∧
  (select_file (File.id file) (files w) ≠ None ∨
   select_slot (File.slotId file) (slots w) = None →
   addFile file w = (Thrown, w)).
Proof.
  unfold addFile. split.
  - intros Hfresh Hslot. rewrite Hfresh.
    destruct (select_slot (File.slotId file) (slots w)); [|congruence].
    eexists. split; [reflexivity|].
    cbn [set_files slots files text_contents]. repeat split.
    + now rewrite select_file_inserted, Hfresh, String.eqb_refl.
    + now rewrite select_files_inserted, String.eqb_refl.
    + intros other Hother. rewrite select_file_inserted.
      destruct (select_file other (files w)); [reflexivity|].
      destruct (String.eqb_spec (File.id file) other); congruence.
  - intros [Hused|Hslot].
    + now destruct (select_file (File.id file) (files w)).
    + rewrite Hslot. now destruct (select_file (File.id file) (files w)).
Qed.

Lemma bump_absent slotId rows :
  select_slot slotId rows = None → List.map (bump slotId) rows = rows.
Proof.
  intros Habsent. rewrite <- (map_id rows) at 2. apply map_ext_in.
  intros row Hin. apply bump_other.
  now apply (proj1 (select_slot_None slotId rows) Habsent).
Qed.

(** X14. [incrementFailedAttempts] on a stored slot returns the stored
    count plus one and stores it, leaving every other slot's row as it
    was; on an id that is not stored it returns 0 and changes nothing. *)
Theorem incrementFailedAttempts_counts slotId w :
  (∀ slot, select_slot slotId (slots w) = Some slot →
     ∃ w',
       incrementFailedAttempts slotId w =
         (Returned (Slot.failedAttempts slot + 1), w') ∧
       option_map Slot.failedAttempts (select_slot slotId (slots w')) =
         Some (Slot.failedAttempts slot + 1) ∧
       (∀ other, other ≠ slotId →
                 select_slot other (slots w') = select_slot other (slots w)) ∧
       files w' = files w ∧ text_contents w' = text_contents w ∧
       uploads w' = uploads w) ∧
  (select_slot slotId (slots w) = None →
   incrementFailedAttempts slotId w = (Returned 0, w)).
Proof.
  split.
  - intros slot Hslot. exists (counted slotId w).
    rewrite incrementFailedAttempts_eq, (incremented_count _ _ _ Hslot).
    split; [reflexivity|]. split.
    { now rewrite (counted_slot _ _ _ Hslot). }
    split; [|now repeat split].
    intros other Hother.
    destruct (same_records_counted other slotId w w) as (Hs & _);
      [congruence | apply same_records_refl | exact Hs].
  - intros Habsent. rewrite incrementFailedAttempts_eq.
    unfold counted. rewrite (bump_absent _ _ Habsent).
    cbn [set_slots slots]. rewrite Habsent. cbn [failedAttempts_or_0].
    now destruct w.
Qed.

(** ** What the sweep deletes and what it keeps *)

Lemma purge_all_slot rows :
  ∀ slotId w,
    select_slot slotId (slots (purge_all rows w)) =
    if existsb (fun row => String.eqb (Slot.id row) slotId) rows
    then None else select_slot slotId (slots w).
Proof.
  induction rows as [|row rows IH]; intros slotId w; [reflexivity|].
  cbn [purge_all fold_left existsb]. fold (purge_all rows (purge (Slot.id row) w)).
  rewrite IH. cbn [purge slots]. rewrite select_slot_removed.
  rewrite (String.eqb_sym (Slot.id row) slotId).
  destruct (String.eqb slotId (Slot.id row));
    now destruct (existsb _ rows).
Qed.

Lemma purge_all_files rows :
  ∀ slotId w,
    select_files slotId (files (purge_all rows w)) =
    if existsb (fun row => String.eqb (Slot.id row) slotId) rows
    then [] else select_files slotId (files w).
Proof.
  induction rows as [|row rows IH]; intros slotId w; [reflexivity|].
  cbn [purge_all fold_left existsb]. fold (purge_all rows (purge (Slot.id row) w)).
  rewrite IH. cbn [purge files]. rewrite select_files_removed.
  rewrite (String.eqb_sym (Slot.id row) slotId).
  destruct (String.eqb slotId (Slot.id row));
    now destruct (existsb _ rows).
Qed.

Lemma purge_all_text rows :
  ∀ slotId w,
    select_text slotId (text_contents (purge_all rows w)) =
    if existsb (fun row => String.eqb (Slot.id row) slotId) rows
    then None else select_text slotId (text_contents w).
Proof.
  induction rows as [|row rows IH]; intros slotId w; [reflexivity|].
  cbn [purge_all fold_left existsb]. fold (purge_all rows (purge (Slot.id row) w)).
  rewrite IH. cbn [purge text_contents]. rewrite select_text_removed.
  rewrite (String.eqb_sym (Slot.id row) slotId).
  destruct (String.eqb slotId (Slot.id row));
    now destruct (existsb _ rows).
Qed.

Lemma purge_all_rows rows :
  ∀ w row,
    In row (slots (purge_all rows w)) →
    In row (slots w) ∧ ∀ gone, In gone rows → Slot.id gone ≠ Slot.id row.
Proof.
  induction rows as [|first rows IH]; intros w row Hin.
  - split; [exact Hin | intros gone []].
  - cbn [purge_all fold_left] in Hin.
    fold (purge_all rows (purge (Slot.id first) w)) in Hin.
    apply IH in Hin as [Hin Hrest]. cbn [purge slots] in Hin.
    apply filter_In in Hin as [Hin Hne]. split; [exact Hin|].
    intros gone [<-|Hgone]; [|now apply Hrest].
    intros Heq. rewrite Heq, String.eqb_refl in Hne. discriminate.
Qed.

Lemma unique_row rows row row' :
  List.NoDup (List.map Slot.id rows) →
  In row rows → In row' rows → Slot.id row = Slot.id row' → row = row'.
Proof.
  induction rows as [|first rows IH]; intros Hnd Hin Hin' Hid; [destruct Hin|].
  cbn [List.map] in Hnd. apply List.NoDup_cons_iff in Hnd as [Hfirst Hnd].
  destruct Hin as [->|Hin], Hin' as [->|Hin'].
  - reflexivity.
  - exfalso. apply Hfirst. rewrite Hid. now apply in_map.
  - exfalso. apply Hfirst. rewrite <- Hid. now apply in_map.
  - now apply IH.
Qed.

Lemma cleanup_job_eq now w :
  cleanup_job now w =
  (Returned tt,
   purge_all (List.filter (fun row => Slot.expiresAt row <=? now) (slots w)) w).
Proof. unfold cleanup_job, try_catch. now rewrite deleteExpiredSlots_eq. Qed.

(** X15. On a store whose slot ids are distinct, the cleanup job deletes
    every slot with [expiresAt <= now] together with its file records and
    its text record, and leaves the row, the file records and the text
    record of every slot with [now < expiresAt] exactly as they were. *)
Theorem sweep_deletes_exactly_the_expired now w :
  List.NoDup (List.map Slot.id (slots w)) →
  ∃ w',
    cleanup_job now w = (Returned tt, w') ∧
    ∀ slotId slot,
      select_slot slotId (slots w) = Some slot →
      (Slot.expiresAt slot <= now →
       select_slot slotId (slots w') = None ∧
       select_files slotId (files w') = [] ∧
       select_text slotId (text_contents w') = None) ∧
      (now < Slot.expiresAt slot →
       select_slot slotId (slots w') = Some slot ∧
       select_files slotId (files w') = select_files slotId (files w) ∧
       select_text slotId (text_contents w') =
         select_text slotId (text_contents w)).
Proof.
  intros Hnd. eexists. split; [apply cleanup_job_eq|].
  intros slotId slot Hslot.
  destruct (select_slot_Some _ _ _ Hslot) as [Hin Hid].
  rewrite purge_all_slot, purge_all_files, purge_all_text.
  split.
  - intros Hold.
    replace (existsb _ _) with true; [now repeat split|].
    symmetry. apply existsb_exists. exists slot. split.
    + apply filter_In. split; [exact Hin | now apply Z.leb_le].
    + rewrite Hid. apply String.eqb_refl.
  - intros Hyoung.
    replace (existsb _ _) with false; [now repeat split|].
    symmetry. apply not_true_is_false. intros Hex.
    apply existsb_exists in Hex as (row & Hrow & Heq).
    apply filter_In in Hrow as [Hrow Hold]. apply String.eqb_eq in Heq.
    assert (row = slot) as -> by (apply (unique_row (slots w)); congruence).
    apply Z.leb_le in Hold. lia.
Qed.

(** X16. After the cleanup job has run, no stored slot has
    [expiresAt <= now]: a second run at the same instant selects nothing,
    deletes nothing and leaves the state as it is. *)
Theorem sweep_twice now w :
  ∃ w',
    cleanup_job now w = (Returned tt, w') ∧
    getExpiredSlots now w' = (Returned [], w') ∧
    cleanup_job now w' = (Returned tt, w').
Proof.
  eexists. split; [apply cleanup_job_eq|].
  set (w' := purge_all _ w).
  assert (List.filter (fun row => Slot.expiresAt row <=? now) (slots w') = [])
    as Hnone.
  { destruct (List.filter _ (slots w')) as [|row rest] eqn:Hrest;
      [reflexivity|].
    exfalso.
    assert (In row (List.filter (fun row => Slot.expiresAt row <=? now)
                                (slots w'))) as Hrow
      by (rewrite Hrest; now left).
    apply filter_In in Hrow as [Hrow Hold].
    apply purge_all_rows in Hrow as [Hrow Hgone].
    apply (Hgone row); [|reflexivity].
    apply filter_In. now split. }
  split.
  - unfold getExpiredSlots. now rewrite Hnone.
  - rewrite cleanup_job_eq. now rewrite Hnone.
Qed.

(** ** Creation *)

Lemma short_password password :
  negb (truthy password) || (Z.of_nat (utf16_length password) <? 4) =
  (Z.of_nat (utf16_length password) <? 4).
Proof.
  clear argon2_hash argon2_verify trim.
  unfold truthy. destruct password as [|c rest]; reflexivity.
Qed.

(** On a string of ASCII characters the UTF-16 length is the number of
    bytes. *)
Lemma utf16_length_ascii s :
  forallb (fun c => N.ltb (N_of_ascii c) 128) (list_ascii_of_string s) = true →
  utf16_length s = String.length s.
Proof.
  clear argon2_hash argon2_verify trim.
  induction s as [|c rest IH]; [reflexivity|].
  cbn [list_ascii_of_string forallb utf16_length String.length].
  intros [Hc Hrest]%andb_true_iff. rewrite (IH Hrest).
  unfold utf16_units. cbn zeta.
  apply N.ltb_lt in Hc.
  destruct (N.leb_spec 128 (N_of_ascii c)); [lia|].
  destruct (N.leb_spec 240 (N_of_ascii c)); [lia|].
  reflexivity.
Qed.

(** X17. Creation answers 400 "Password must be at least 4 characters"
    exactly when the [length] of the password, counted in UTF-16 code
    units as JavaScript does, is below 4 (the empty password included),
    and then stores nothing.  The count is not the number of bytes: a
    password of three characters is refused however many bytes its
    characters take. *)
Theorem create_rejects_short_passwords tape salt now password w :
  ((utf16_length password < 4)%nat →
   post_slot tape salt now password w =
     (Returned (error_response 400 "Password must be at least 4 characters"),
      w)) ∧
  (∀ r, result_of (post_slot tape salt now password w) = Returned r →
        status r = 400 → (utf16_length password < 4)%nat).
Proof.
  unfold post_slot, try_catch. rewrite short_password. split.
  - intros Hshort.
    destruct (Z.ltb_spec (Z.of_nat (utf16_length password)) 4); [|lia].
    reflexivity.
  - intros r Hr Hstatus.
    destruct (Z.ltb_spec (Z.of_nat (utf16_length password)) 4); [lia|].
    exfalso. rewrite bind_eq in Hr.
    destruct (createSlot tape salt now password w) as [[slot| |] w1];
      cbn in Hr; try discriminate; injection Hr as <-; discriminate.
Qed.

(** X18. A slot that has just been created opens with its password: when
    [argon2.verify] accepts the hash [argon2.hash] made, and every file
    and text row of the store belongs to a stored slot, creation with a
    password whose [length] is at least 4 UTF-16 code units announces the
    id and the expiry of the stored slot, and an access with that id and
    password, at any time up to the expiry, is answered 200 with no files
    and no text. *)
Theorem create_then_access tape salt now password w slot w' :
  (4 <= utf16_length password)%nat →
  argon2_verify (argon2_hash password salt) password = Some true →
  references_resolve w →
  createSlot tape salt now password w = (Returned slot, w') →
  post_slot tape salt now password w = (Returned (created slot), w') ∧
  Slot.expiresAt slot = now + 86400000 ∧
  ∀ later, later <= Slot.expiresAt slot →
    post_access later (Slot.id slot) password w' =
      (Returned (json_response (access_body slot [] None)), w').
Proof.
  intros Hlong Hverify [Hfiles Htexts] Hcreate.
  destruct (createSlot_cases tape salt now password w)
    as [[_ Hr]|(slotId & _ & Hfree & Hc)].
  { rewrite Hcreate in Hr. now destruct (Hr slot). }
  cbn zeta in Hc. rewrite Hc in Hcreate. injection Hcreate as <- <-.
  split; [|split].
  - unfold post_slot, try_catch. rewrite short_password.
    destruct (Z.ltb_spec (Z.of_nat (utf16_length password)) 4); [lia|].
    now rewrite bind_eq, Hc.
  - cbn. lia.
  - intros later Hlater.
    erewrite post_access_granted; [| | exact Hlater |].
    + cbn [Slot.id set_slots files text_contents].
      replace (select_files slotId (files w)) with (@nil File.t).
      replace (select_text slotId (text_contents w))
        with (@None TextContent.t); [reflexivity|].
      * symmetry. unfold select_text.
        destruct (find _ (text_contents w)) as [row|] eqn:Hrow; [|reflexivity].
        apply find_some in Hrow as [Hin Heq]. apply String.eqb_eq in Heq.
        specialize (Htexts row Hin). congruence.
      * symmetry. unfold select_files.
        destruct (List.filter _ (files w)) as [|row rest] eqn:Hrows;
          [reflexivity|].
        assert (In row (List.filter
                          (fun row => String.eqb (File.slotId row) slotId)
                          (files w))) as Hin by (rewrite Hrows; now left).
        apply filter_In in Hin as [Hin Heq]. apply String.eqb_eq in Heq.
        specialize (Hfiles row Hin). congruence.
    + cbn [Slot.id set_slots slots].
      rewrite select_slot_inserted, Hfree. cbn [Slot.id].
      now rewrite String.eqb_refl.
    + unfold valid_password. cbn [Slot.passwordHash]. now rewrite Hverify.
Qed.

Lemma append_digits_total length :
  ∀ id tape,
    (length <= List.length tape)%nat →
    ∃ id' tape',
      append_digits length id tape = Some (id', tape') ∧
      (List.length tape' + length = List.length tape)%nat.
Proof.
  induction length as [|length IH]; intros id tape Hlen.
  - exists id, tape. split; [reflexivity | lia].
  - destruct tape as [|r tape]; [cbn in Hlen; lia|].
    cbn [List.length] in Hlen.
    destruct (IH (id +:+ string_of_Z (random_below r 10)) tape)
      as (id' & tape' & Hrun & Hrest); [lia|].
    exists id', tape'. split; [exact Hrun | cbn [List.length]; lia].
Qed.

Lemma append_digits_short length :
  ∀ id tape,
    (List.length tape < length)%nat → append_digits length id tape = None.
Proof.
  induction length as [|length IH]; intros id tape Hlen; [lia|].
  destruct tape as [|r tape]; [reflexivity|].
  cbn [List.length] in Hlen. cbn [append_digits]. apply IH. lia.
Qed.

(** X19. With readings of [Math.random()] in [0, 1), nine readings are
    always enough for [generateSlotId] and fewer than seven never are; it
    uses one reading for the length and one per digit.  On a store without
    slots [createSlot] then returns at the first attempt. *)
Theorem generateSlotId_needs_seven_to_nine tape :
  Forall unit_interval tape →
  ((9 <= List.length tape)%nat →
   ∃ slotId tape',
     generateSlotId tape = Some (slotId, tape') ∧
     List.length tape =
       (1 + String.length slotId + List.length tape')%nat ∧
     ∀ salt now password w,
       slots w = [] →
       ∃ slot w', createSlot tape salt now password w = (Returned slot, w') ∧
                  Slot.id slot = slotId) ∧
  ((List.length tape < 7)%nat → generateSlotId tape = None).
Proof.
  intros Htape. split.
  - intros Hlen. destruct tape as [|r tape]; [cbn in Hlen; lia|].
    pose proof Htape as Hall. apply Forall_cons in Htape as [Hr Htape].
    pose proof (random_below_range r 3 Hr ltac:(lia)) as Hrange.
    cbn [List.length] in Hlen.
    destruct (append_digits_total (Z.to_nat (random_below r 3 + 6)) "" tape)
      as (slotId & tape' & Hrun & Hrest); [lia|].
    exists slotId, tape'.
    assert (generateSlotId (r :: tape) = Some (slotId, tape')) as Hgen
      by exact Hrun.
    destruct (append_digits_spec _ _ _ _ _ Htape Hrun) as (Hsize & _).
    cbn [String.length] in Hsize.
    split; [exact Hgen|]. split; [cbn [List.length]; lia|].
    intros salt now password w Hempty.
    apply (createSlot_first_free _ tape'); [exact Hgen|].
    now rewrite Hempty.
  - intros Hlen. destruct tape as [|r tape]; [reflexivity|].
    apply Forall_cons in Htape as [Hr Htape].
    pose proof (random_below_range r 3 Hr ltac:(lia)) as Hrange.
    cbn [List.length] in Hlen. unfold generateSlotId.
    apply append_digits_short. lia.
Qed.

(** ** Explicit deletion *)

(** X20. A delete request with the right password on a live slot is
    answered with success and leaves the state [deleteSlot] produces: the
    slot, its file records, its text record and the blobs of its files are
    gone.  From then on every request addressed to the id is answered 404,
    in every run in which the id is not handed out again. *)
Theorem delete_then_not_found now slotId password slot w :
  select_slot slotId (slots w) = Some slot →
  now <= Slot.expiresAt slot →
  valid_password slot password = true →
  ∃ w',
    delete_slot now slotId password w = (Returned success_response, w') ∧
    w' = world_of (deleteSlot slotId w) ∧
    select_slot slotId (slots w') = None ∧
    select_files slotId (files w') = [] ∧
    select_text slotId (text_contents w') = None ∧
    (∀ file, In file (select_files slotId (files w)) →
             file_path file ∉ uploads w') ∧
    (∀ events, never_reissued slotId events w' →
               not_found_throughout slotId events w').
Proof.
  intros Hslot Hlive Hgood. exists (purge slotId w).
  assert (select_slot slotId (slots (purge slotId w)) = None) as Hgone
    by apply purge_slot_gone.
  repeat split.
  - now apply (delete_slot_granted _ _ _ slot).
  - now rewrite deleteSlot_purge.
  - exact Hgone.
  - apply purge_files_gone.
  - apply purge_text_gone.
  - apply purge_blobs_gone.
  - intros events. now apply absent_not_found.
Qed.

(** ** The lockout counter as the caller sees it *)

(** X1. In every state the server reaches from the empty store, the
    [failedAttempts] of every stored slot is 0, 1 or 2: a slot whose count
    reaches 3 is never left in the store. *)
Theorem lockout_counter_in_range events :
  attempts_in_range (slots (snd (run events initial_world))).
Proof. apply reachable_attempts_in_range. Qed.

(** X2. In every state the server reaches from the empty store, a wrong
    password on the access route of a live slot gets one of three answers:
    401 with 2 attempts remaining (first failure), 401 with 1 attempt
    remaining (second), or 403 with the slot deleted (third). *)
Theorem rejected_access_answers events now slotId password slot :
  let w := snd (run events initial_world) in
  select_slot slotId (slots w) = Some slot →
  now <= Slot.expiresAt slot →
  valid_password slot password = false →
  (Slot.failedAttempts slot = 0 ∧
   result_of (post_access now slotId password w) =
     Returned
       (error_response 401 "Invalid password. 2 attempts remaining.")) ∨
  (Slot.failedAttempts slot = 1 ∧
   result_of (post_access now slotId password w) =
     Returned
       (error_response 401 "Invalid password. 1 attempts remaining.")) ∨
  (Slot.failedAttempts slot = 2 ∧
   result_of (post_access now slotId password w) = Returned locked_out ∧
   select_slot slotId
     (slots (world_of (post_access now slotId password w))) = None).
Proof.
  intros w Hslot Hlive Hbad.
  pose proof (reachable_attempts_in_range events slotId slot Hslot) as Hrange.
  assert (Slot.failedAttempts slot = 0 ∨ Slot.failedAttempts slot = 1 ∨
          Slot.failedAttempts slot = 2) as [H0|[H1|H2]] by lia.
  - left. split; [exact H0|].
    rewrite (post_access_rejected _ _ _ _ _ Hslot Hlive Hbad) by lia.
    now rewrite H0.
  - right; left. split; [exact H1|].
    rewrite (post_access_rejected _ _ _ _ _ Hslot Hlive Hbad) by lia.
    now rewrite H1.
  - right; right. split; [exact H2|].
    rewrite (post_access_locked _ _ _ _ _ Hslot Hlive Hbad) by lia.
    split; [reflexivity | apply purge_slot_gone].
Qed.

(** ** The countdown timer *)

Lemma floor_div_eq a b : floor_div a b = a / b.
Proof.
  clear argon2_hash argon2_verify trim.
  unfold floor_div. symmetry. apply Zdiv_Qdiv.
Qed.

(** X21. While the expiry lies ahead, the label of the timer is built
    from the whole hours, minutes (below 60) and seconds (below 60) of the
    remaining time, rounded down to the second; it shows hours and minutes
    when there is at least an hour left, minutes and seconds when there is
    at least a minute, and seconds otherwise. *)
Theorem timer_breakdown expiresAt now st :
  now < expiresAt →
  ∃ hours minutes seconds,
    0 <= hours ∧ 0 <= minutes < 60 ∧ 0 <= seconds < 60 ∧
    hours * 3600000 + minutes * 60000 + seconds * 1000 <= expiresAt - now ∧
    expiresAt - now <
      hours * 3600000 + minutes * 60000 + seconds * 1000 + 1000 ∧
    timeRemaining (updateTimer expiresAt now st) =
      (if hours >? 0
       then string_of_Z hours +:+ "h " +:+ string_of_Z minutes +:+ "m"
       else if minutes >? 0
       then string_of_Z minutes +:+ "m " +:+ string_of_Z seconds +:+ "s"
       else string_of_Z seconds +:+ "s").
Proof.
  clear argon2_hash argon2_verify trim.
  intros Hahead. unfold updateTimer.
  destruct (Z.leb_spec (expiresAt - now) 0) as [|Hpos]; [lia|].
  cbn [timeRemaining]. rewrite !floor_div_eq.
  rewrite !Z.rem_mod_nonneg by lia.
  change (1000 * 60 * 60) with 3600000. change (1000 * 60) with 60000.
  set (remaining := expiresAt - now) in *.
  exists (remaining / 3600000), (remaining mod 3600000 / 60000),
         (remaining mod 60000 / 1000).
  repeat split; try reflexivity; Z.div_mod_to_equations; lia.
Qed.

(** X22. The timer shows "Expired" with an empty bar exactly from the
    instant [now = expiresAt] on.  Before that, a timer that has not yet
    expired shows "Expires in: ..." and warns exactly when less than two
    hours are left; within the 24 hours of a slot the bar is between 0 and
    100 percent.  A timer that has once expired keeps showing "Expired"
    even when it is given a later expiry, as nothing resets the flag. *)
Theorem timer_expiry expiresAt now st :
  (expiresAt <= now →
   updateTimer expiresAt now st =
     {| timeRemaining := "Expired"; isExpired := true; percentage := 0 |} ∧
   timer_label (updateTimer expiresAt now st) = "Expired" ∧
   showWarning expiresAt now (updateTimer expiresAt now st) = false) ∧
  (now < expiresAt →
   isExpired (updateTimer expiresAt now st) = isExpired st ∧
   (isExpired st = false →
    timer_label (updateTimer expiresAt now st) =
      "Expires in: " +:+ timeRemaining (updateTimer expiresAt now st) ∧
    (showWarning expiresAt now (updateTimer expiresAt now st) = true ↔
     expiresAt - now < 7200000)) ∧
   (isExpired st = true →
    timer_label (updateTimer expiresAt now st) = "Expired") ∧
   (expiresAt - now <= 86400000 →
    (0 < percentage (updateTimer expiresAt now st))%Q ∧
    (percentage (updateTimer expiresAt now st) <= 100)%Q)).
Proof.
  clear argon2_hash argon2_verify trim.
  unfold updateTimer, timer_label, showWarning. split.
  - intros Hpast.
    destruct (Z.leb_spec (expiresAt - now) 0) as [|]; [|lia].
    now repeat split.
  - intros Hahead.
    destruct (Z.leb_spec (expiresAt - now) 0) as [|Hpos]; [lia|].
    cbn [isExpired timeRemaining percentage].
    split; [reflexivity|]. split; [|split].
    + intros ->. split; [reflexivity|]. cbn [negb andb].
      change (2 * 60 * 60 * 1000) with 7200000. apply Z.ltb_lt.
    + now intros ->.
    + intros Hday. change (24 * 60 * 60 * 1000) with 86400000.
      set (remaining := expiresAt - now) in *.
      assert (0 < inject_Z (86400000 - (86400000 - remaining))
                  / inject_Z 86400000 * 100)%Q as Hlow.
      { unfold Qlt, Qdiv, Qmult, Qinv, inject_Z. cbn. lia. }
      assert (inject_Z (86400000 - (86400000 - remaining))
              / inject_Z 86400000 * 100 <= 100)%Q as Hhigh.
      { unfold Qle, Qdiv, Qmult, Qinv, inject_Z. cbn. lia. }
      split.
      * eapply Qlt_le_trans; [exact Hlow | apply Q.le_max_r].
      * apply Q.max_lub; [unfold Qle; cbn; lia | exact Hhigh].
Qed.


(** ** The file list of the upload zone *)

Lemma filter_index_all {A} (keep : A → nat → bool) (xs : list A) :
  ∀ start,
    (∀ x i, (start <= i)%nat → keep x i = true) →
    filter_index keep start xs = xs.
Proof.
  clear argon2_hash argon2_verify trim.
  induction xs as [|x xs IH]; intros start Hkeep; [reflexivity|].
  cbn [filter_index]. rewrite Hkeep by lia. f_equal.
  apply IH. intros y i Hi. apply Hkeep. lia.
Qed.

Lemma filter_index_skip {A} (xs : list A) :
  ∀ start index,
    filter_index (fun _ i => negb (Nat.eqb i (start + index))) start xs =
    (firstn index xs ++ skipn (S index) xs)%list.
Proof.
  clear argon2_hash argon2_verify trim.
  induction xs as [|x xs IH]; intros start index.
  - now rewrite firstn_nil, skipn_nil.
  - cbn [filter_index]. destruct index as [|index].
    + rewrite Nat.add_0_r, Nat.eqb_refl. cbn [negb firstn skipn app].
      apply filter_index_all. intros y i Hi.
      apply negb_true_iff, Nat.eqb_neq. lia.
    + replace (Nat.eqb start (start + S index)) with false
        by (symmetry; apply Nat.eqb_neq; lia).
      cbn [negb firstn skipn app]. f_equal.
      rewrite <- Nat.add_succ_comm. apply IH.
Qed.

(** X24. Removing a file from the list of the upload zone deletes the
    entry at that index and keeps the others in order; an index past the
    end removes nothing; and removing a file that was just dropped onto
    the zone gives back the list as it was. *)
Theorem removeFile_at_index {A} (files : list A) (index : nat) :
  removeFile files index = (firstn index files ++ skipn (S index) files)%list ∧
  ((index < List.length files)%nat →
   S (List.length (removeFile files index)) = List.length files) ∧
  ((List.length files <= index)%nat → removeFile files index = files) ∧
  (∀ file, option_map (fun added => removeFile added (List.length files))
                      (handleDrop false files [file]) = Some files).
Proof.
  clear argon2_hash argon2_verify trim.
  assert (∀ (xs : list A) i,
            removeFile xs i = (firstn i xs ++ skipn (S i) xs)%list) as Heq.
  { intros xs i. unfold removeFile. apply (filter_index_skip xs 0 i). }
  split; [apply Heq|]. split; [|split].
  - intros Hin. rewrite Heq, length_app, firstn_length_le, length_skipn by lia.
    lia.
  - intros Hout. rewrite Heq, firstn_all2, skipn_all2 by lia.
    apply app_nil_r.
  - intros file. cbn [handleDrop option_map]. f_equal.
    rewrite Heq, firstn_app, skipn_app, firstn_all, Nat.sub_diag.
    rewrite skipn_all2 by lia.
    replace (S (List.length files) - List.length files)%nat with 1%nat by lia.
    cbn [firstn skipn]. now rewrite !app_nil_r.
Qed.

(** ** Uploads that do not go through *)

Lemma for_each_app {A} (xs ys : list A) (body : A -> M unit) w :
  for_each (xs ++ ys) body w = (for_each xs body ;; for_each ys body) w.
Proof.
  clear argon2_hash argon2_verify trim.
  revert w. induction xs as [|x xs IH]; intros w; [reflexivity|].
  cbn [app for_each]. rewrite !bind_eq.
  destruct (body x w) as [[[]| |] w1]; [|reflexivity|reflexivity].
  now rewrite IH, bind_eq.
Qed.

(** X10. The upload loop is not a transaction.  When one file of an
    upload comes with an id that is already taken, the request is answered
    500 "Failed to upload files"; the files before it in the request stay
    registered, the files after it and the text are not stored. *)
Theorem upload_stops_at_taken_id
  now slotId password text before clash after slot w :
  select_slot slotId (slots w) = Some slot →
  now <= Slot.expiresAt slot →
  valid_password slot password = true →
  List.NoDup (List.map (fun upload => snd (fst upload)) before) →
  (∀ upload, In upload before →
             select_file (snd (fst upload)) (files w) = None) →
  select_file (snd (fst clash))
    (files w ++ List.map (file_record slotId) before) ≠ None →
  ∃ w',
    post_upload now slotId password text (before ++ clash :: after) w =
      (Returned (error_response 500 "Failed to upload files"), w') ∧
    slots w' = slots w ∧
    files w' = (files w ++ List.map (file_record slotId) before)%list ∧
    text_contents w' = text_contents w.
Proof.
  intros Hslot Hlive Hgood Hnd Hfresh Htaken. unfold post_upload.
  enter_live Hslot Hlive. rewrite Hgood. cbn [negb].
  rewrite bind_eq, for_each_app, bind_eq.
  rewrite (for_each_addFile _ _ _ slot Hslot Hnd Hfresh).
  cbn [for_each]. rewrite bind_eq. unfold addFile at 1.
  rewrite file_record_id. cbn [set_files files].
  destruct (select_file (snd (fst clash))
              (files w ++ List.map (file_record slotId) before));
    [|congruence].
  eexists. split; [reflexivity|]. now repeat split.
Qed.

(** X11. The files of an upload are written to the uploads directory
    before the handler looks at the slot or the password.  An upload to a
    slot that does not exist (404) or with a wrong password (401) changes
    no table, registers no file, and still leaves every file of the
    request on disk. *)
Theorem refused_upload_leaves_blobs now slotId password text uploaded w :
  select_slot slotId (slots w) = None ∨
  (∃ slot, select_slot slotId (slots w) = Some slot ∧
           now <= Slot.expiresAt slot ∧
           valid_password slot password = false) →
  ∃ r w',
    upload_route now slotId password text uploaded w = (Returned r, w') ∧
    (status r = 404 ∨ status r = 401) ∧
    slots w' = slots w ∧ files w' = files w ∧
    text_contents w' = text_contents w ∧
    uploads w ⊆ uploads w' ∧
    ∀ upload, In upload uploaded →
              file_path (file_record slotId upload) ∈ uploads w'.
Proof.
  intros Hrefused. unfold upload_route. rewrite bind_eq. cbn [multer_store].
  assert (∀ (rest : gset string) upload,
            In upload uploaded →
            file_path (file_record slotId upload) ∈
              rest ∪ list_to_set
                (List.map (fun upload =>
                             path_join UPLOADS_DIR
                               (MulterFile.filename (fst (fst upload))))
                          uploaded)) as Hdisk.
  { intros rest upload Hin.
    apply elem_of_union_r, elem_of_list_to_set, list_elem_of_In.
    rewrite file_record_path.
    now apply (in_map (fun upload =>
                         path_join UPLOADS_DIR
                           (MulterFile.filename (fst (fst upload))))). }
  destruct Hrefused as [Habsent|(slot & Hslot & Hlive & Hbad)].
  - rewrite post_upload_absent by exact Habsent.
    eexists _, _. split; [reflexivity|].
    cbn [slots files text_contents uploads status not_found error_response].
    repeat split; [now left | apply union_subseteq_l | apply Hdisk].
  - erewrite post_upload_rejected; [| exact Hslot | exact Hlive | exact Hbad].
    eexists _, _. split; [reflexivity|].
    cbn [slots files text_contents uploads status error_response].
    repeat split; [now right | apply union_subseteq_l | apply Hdisk].
Qed.

End Server.

(** * Worked instances *)

Lemma lockout_after_three_failures_witness :
  ∃ w',
    post_access plain_verify 2000 "1234590" "wrong" (world_a 2) =
      (Returned locked_out, w') ∧
    select_slot "1234590" (slots w') = None ∧
    post_access plain_verify 3000 "1234590" "abcd" w' =
      (Returned not_found, w').
Proof.
  destruct (lockout_after_three_failures plain_hash plain_verify no_trim
              2000 "1234590" "wrong" (slot_a 2) (world_a 2))
    as [_ Hlocked]; [reflexivity | cbn; lia | reflexivity |].
  destruct Hlocked as (w' & Hanswer & _ & Hgone & _ & _ & Hlater & _);
    [cbn; lia|].
  exists w'. repeat split; [exact Hanswer | exact Hgone | apply Hlater].
Defined.

Lemma lazy_expiration_witness :
  ∃ w',
    handle plain_hash plain_verify no_trim 90000000
           (Download "1234590" "f1" "abcd") (world_a 0) =
      (Returned (Some expired), w') ∧
    select_slot "1234590" (slots w') = None ∧
    select_files "1234590" (files w') = [].
Proof.
  destruct (lazy_expiration plain_hash plain_verify no_trim 90000000
              (Download "1234590" "f1" "abcd") "1234590" (slot_a 0) (world_a 0))
    as (w' & Hanswer & _ & Hgone & Hfiles & _);
    [reflexivity | reflexivity | cbn; lia |].
  exists w'. repeat split; assumption.
Defined.

Lemma expired_then_not_found_witness :
  ∃ w',
    handle plain_hash plain_verify no_trim 90000000
           (Access "1234590" "abcd") (world_a 0) =
      (Returned (Some expired), w') ∧
    post_access plain_verify 90000001 "1234590" "abcd" w' =
      (Returned not_found, w').
Proof.
  destruct (expired_then_not_found plain_hash plain_verify no_trim 90000000
              (Access "1234590" "abcd") "1234590" (slot_a 0) (world_a 0))
    as (w' & Hanswer & _ & Hlater & _);
    [reflexivity | reflexivity | cbn; lia |].
  exists w'. split; [exact Hanswer | apply Hlater].
Defined.

Lemma cascading_deletion_idempotent_witness :
  ∃ w',
    deleteSlot "1234590" (world_a 0) = (Returned tt, w') ∧
    (file_path file_a ∉ uploads w') ∧
    deleteSlot "1234590" w' = (Returned tt, w').
Proof.
  destruct (cascading_deletion_idempotent "1234590" (world_a 0))
    as (w' & Hfirst & _ & _ & _ & Hblobs & Hsecond & _).
  exists w'. repeat split; [exact Hfirst | | exact Hsecond].
  apply Hblobs. left. reflexivity.
Defined.

Lemma slot_fields_immutable_witness :
  Slot.expiresAt (slot_a 0) = Slot.createdAt (slot_a 0) + 86400000 ∧
  (select_slot "1234590"
     (slots (world_of (handle plain_hash plain_verify no_trim 2000
                              (Access "1234590" "wrong") (world_a 1)))) = None ∨
   ∃ slot',
     select_slot "1234590"
       (slots (world_of (handle plain_hash plain_verify no_trim 2000
                                (Access "1234590" "wrong") (world_a 1)))) =
       Some slot' ∧
     Slot.expiresAt slot' = Slot.expiresAt (slot_a 1)).
Proof.
  destruct (slot_fields_immutable plain_hash plain_verify no_trim)
    as [Hcreate Hstep].
  split.
  - apply (Hcreate tape_a "salt" 1000 "abcd" initial_world (slot_a 0)
                   (set_slots [slot_a 0] initial_world)).
    reflexivity.
  - destruct (Hstep 2000 (Access "1234590" "wrong") (world_a 1)
                    "1234590" (slot_a 1))
      as [Hgone|(slot' & Hkept & _ & _ & _ & Hexpires & _)];
      [reflexivity | now left | right].
    exists slot'. split; assumption.
Defined.

Lemma responses_hide_secrets_witness :
  ¬ In "passwordHash"
      (body_keys (json_response
                    (access_body (slot_a 0) [file_a] (Some text_a)))).
Proof.
  apply (responses_hide_secrets plain_hash plain_verify no_trim 2000
           (Access "1234590" "abcd") (world_a 0)).
  reflexivity.
Defined.

Lemma generated_identifiers_witness :
  select_slot "1234590" (slots (world_a 0)) = Some (slot_a 0) ∧
  generateSlotId tape_retry = Some ("1234590", skipn 8 tape_retry) ∧
  ∃ slot,
    createSlot plain_hash tape_retry "salt" 1000 "abcd" (world_a 0) =
      (Returned slot, set_slots [slot_a 0; slot] (world_a 0)) ∧
    Slot.id slot = "11223344" ∧
    all_digits (Slot.id slot) = true.
Proof.
  assert (∀ tape, forallb (fun r => Qle_bool 0 r && negb (Qle_bool 1 r)) tape
                  = true → Forall unit_interval tape) as Hunit.
  { induction tape as [|r tape IH]; [constructor|].
    cbn [forallb]. intros [[Hlow Hhigh]%andb_true_iff Hrest]%andb_true_iff.
    constructor; [|exact (IH Hrest)].
    split; [now apply Qle_bool_iff|].
    apply Qnot_le_lt. intros Hle. apply Qle_bool_iff in Hle.
    now rewrite Hle in Hhigh. }
  split; [reflexivity|]. split; [reflexivity|].
  destruct (generated_identifiers plain_hash tape_retry "salt" 1000 "abcd"
              (world_a 0)) as (_ & Hloop & _).
  { apply Hunit. reflexivity. }
  destruct (Hloop "1234590" (skipn 8 tape_retry) eq_refl) as [_ Hretry].
  destruct (Hretry (slot_a 0) eq_refl) as [-> _].
  destruct (generated_identifiers plain_hash (skipn 8 tape_retry) "salt" 1000
              "abcd" (world_a 0)) as (Hmade & Hfirst & _).
  { apply Hunit. reflexivity. }
  destruct (Hfirst "11223344" [] eq_refl) as [Hfree _].
  destruct (Hfree eq_refl) as (slot & Hcreate & Hid).
  exists slot. split; [exact Hcreate|]. split; [exact Hid|].
  now destruct (Hmade _ _ Hcreate) as (_ & Hdigits & _).
Defined.

Lemma expiry_instant_witness :
  post_access plain_verify 86401000 "1234590" "abcd" (world_a 0) =
    (Returned (json_response (access_body (slot_a 0) [file_a] (Some text_a))),
     world_a 0) ∧
  ∃ w', cleanup_job 86401000 (world_a 0) = (Returned tt, w') ∧
        select_slot "1234590" (slots w') = None.
Proof.
  destruct (expiry_instant plain_hash plain_verify no_trim 86401000
              "1234590" (slot_a 0) (world_a 0))
    as (_ & _ & Hserved & _ & Hswept); [reflexivity | reflexivity |].
  split; [now apply Hserved | exact Hswept].
Defined.

(** ** Wrong passwords that are not counted *)

(** C2 fails on the code.  Four wrong passwords sent to the download,
    delete and upload routes are each answered 401 "Invalid password" and
    leave [failedAttempts] at 0; the slot is still there and still opens
    with the right password, whereas three wrong passwords on the access
    route delete it. *)
Example wrong_passwords_not_counted_outside_access :
  let guesses :=
    [(2000, Download "1234590" "f1" "guess1");
     (2001, DeleteSlot "1234590" "guess2");
     (2002, Upload "1234590" "guess3" None []);
     (2003, Download "1234590" "f1" "guess4")] in
  let after := run plain_hash plain_verify no_trim guesses (world_a 0) in
  fst after =
    List.repeat (Returned (Some (error_response 401 "Invalid password"))) 4 ∧
  select_slot "1234590" (slots (snd after)) = Some (slot_a 0) ∧
  result_of (post_access plain_verify 2004 "1234590" "abcd" (snd after)) =
    Returned (json_response (access_body (slot_a 0) [file_a] (Some text_a))).
Proof. vm_compute. repeat split. Qed.

(** ** Instances of the further properties *)

Lemma lockout_counter_in_range_witness :
  0 <= Slot.failedAttempts (slot_a 1) <= 2.
Proof.
  apply (lockout_counter_in_range plain_hash plain_verify no_trim events_a
           "1234590").
  vm_compute. reflexivity.
Defined.

Lemma rejected_access_answers_witness :
  result_of
    (post_access plain_verify 2000 "1234590" "bad"
       (snd (run plain_hash plain_verify no_trim events_a initial_world))) =
  Returned (error_response 401 "Invalid password. 1 attempts remaining.").
Proof.
  destruct (rejected_access_answers plain_hash plain_verify no_trim events_a
              2000 "1234590" "bad" (slot_a 1))
    as [[Hcount _]|[[_ Hanswer]|[Hcount _]]];
    [vm_compute; reflexivity | cbn; lia | reflexivity
    | discriminate Hcount | exact Hanswer | discriminate Hcount].
Defined.

Lemma reachable_keys_unique_witness :
  List.NoDup
    (List.map Slot.id
       (slots (snd (run plain_hash plain_verify no_trim events_a
                        initial_world)))).
Proof.
  apply (reachable_keys_unique plain_hash plain_verify no_trim events_a).
Defined.

Lemma reachable_references_resolve_witness :
  select_slot (File.slotId file_a)
    (slots (snd (run plain_hash plain_verify no_trim events_a initial_world)))
  ≠ None.
Proof.
  apply (reachable_references_resolve plain_hash plain_verify no_trim
           events_a).
  vm_compute. left. reflexivity.
Defined.

Lemma reachable_lifetimes_fixed_witness :
  Slot.expiresAt (slot_a 1) = Slot.createdAt (slot_a 1) + 86400000.
Proof.
  apply (reachable_lifetimes_fixed plain_hash plain_verify no_trim events_a).
  vm_compute. left. reflexivity.
Defined.

Lemma other_slots_untouched_witness :
  select_slot "7654321"
    (slots (world_of (handle plain_hash plain_verify no_trim 2000
                        (DeleteSlot "1234590" "abcd") world_ab))) =
  Some slot_b.
Proof.
  destruct (other_slots_untouched plain_hash plain_verify no_trim 2000
              (DeleteSlot "1234590" "abcd") "1234590" "7654321" world_ab)
    as (Hrow & _); [reflexivity | discriminate |].
  rewrite Hrow. reflexivity.
Defined.

Lemma success_needs_valid_password_witness :
  ∃ slot,
    select_slot "1234590" (slots (world_a 0)) = Some slot ∧
    2000 <= Slot.expiresAt slot ∧
    valid_password plain_verify slot "abcd" = true.
Proof.
  apply (success_needs_valid_password plain_hash plain_verify no_trim 2000
           (Access "1234590" "abcd") "1234590" "abcd" (world_a 0)
           (json_response (access_body (slot_a 0) [file_a] (Some text_a))));
    reflexivity.
Defined.

Lemma download_serves_own_files_witness :
  ∃ slot file,
    select_slot "1234590" (slots (world_a 0)) = Some slot ∧
    select_file "f1" (files (world_a 0)) = Some file ∧
    File.slotId file = "1234590".
Proof.
  destruct (download_serves_own_files plain_verify 2000 "1234590" "f1" "abcd"
              (world_a 0)
              {| status := 200;
                 body := DownloadBody "uploads/1001-aa.txt" "notes.txt" |})
    as (slot & file & Hslot & _ & _ & Hfile & Hown & _);
    [vm_compute; reflexivity | reflexivity |].
  exists slot, file. repeat split; assumption.
Defined.

Lemma upload_then_read_back_witness :
  ∃ w',
    upload_route plain_verify no_trim 2000 "1234590" "abcd" (Some "new")
      [upload_b] (world_a 0) = (Returned success_response, w') ∧
    files w' = [file_a; file_record "1234590" upload_b].
Proof.
  destruct (upload_then_read_back plain_verify no_trim 2000 "1234590" "abcd"
              (Some "new") [upload_b] (slot_a 0) (world_a 0))
    as (w' & Hanswer & _ & Hfiles & _).
  - reflexivity.
  - cbn; lia.
  - reflexivity.
  - apply List.NoDup_cons; [intros [] | apply List.NoDup_nil].
  - intros upload [<-|[]]. reflexivity.
  - exists w'. split; [exact Hanswer | exact Hfiles].
Defined.

Lemma upload_stops_at_taken_id_witness :
  ∃ w',
    post_upload plain_verify no_trim 2000 "1234590" "abcd" (Some "new")
      [upload_b; upload_a] (world_a 0) =
      (Returned (error_response 500 "Failed to upload files"), w') ∧
    files w' = [file_a; file_record "1234590" upload_b] ∧
    text_contents w' = [text_a].
Proof.
  destruct (upload_stops_at_taken_id plain_verify no_trim 2000 "1234590"
              "abcd" (Some "new") [upload_b] upload_a [] (slot_a 0)
              (world_a 0))
    as (w' & Hanswer & _ & Hfiles & Htext).
  - reflexivity.
  - cbn; lia.
  - reflexivity.
  - apply List.NoDup_cons; [intros [] | apply List.NoDup_nil].
  - intros upload [<-|[]]. reflexivity.
  - vm_compute. discriminate.
  - exists w'. repeat split; assumption.
Defined.

Lemma refused_upload_leaves_blobs_witness :
  ∃ r w',
    upload_route plain_verify no_trim 2000 "0000000" "abcd" None [upload_b]
      (world_a 0) = (Returned r, w') ∧
    files w' = [file_a] ∧
    file_path (file_record "0000000" upload_b) ∈ uploads w'.
Proof.
  destruct (refused_upload_leaves_blobs plain_verify no_trim 2000 "0000000"
              "abcd" None [upload_b] (world_a 0))
    as (r & w' & Hanswer & _ & _ & Hfiles & _ & _ & Hdisk);
    [left; reflexivity|].
  exists r, w'. repeat split; [exact Hanswer | exact Hfiles |].
  apply Hdisk. left. reflexivity.
Defined.

Lemma addTextContent_upsert_witness :
  ∃ w',
    addTextContent {| TextContent.slotId := "1234590";
                      TextContent.content := "new" |} (world_a 0) =
      (Returned tt, w') ∧
    text_contents w' =
      [{| TextContent.slotId := "1234590"; TextContent.content := "new" |}].
Proof.
  destruct (addTextContent_upsert
              {| TextContent.slotId := "1234590";
                 TextContent.content := "new" |} (world_a 0))
    as [Hstored _].
  destruct Hstored as (w' & Hanswer & _); [vm_compute; discriminate|].
  exists w'. split; [exact Hanswer|].
  vm_compute in Hanswer. injection Hanswer as <-. reflexivity.
Defined.

Lemma addFile_registers_witness :
  ∃ w',
    addFile (file_record "1234590" upload_b) (world_a 0) = (Returned tt, w') ∧
    select_file "f2" (files w') = Some (file_record "1234590" upload_b).
Proof.
  destruct (addFile_registers (file_record "1234590" upload_b) (world_a 0))
    as [Hstored _].
  destruct Hstored as (w' & Hanswer & Hfound & _);
    [reflexivity | vm_compute; discriminate|].
  exists w'. split; [exact Hanswer | exact Hfound].
Defined.

Lemma incrementFailedAttempts_counts_witness :
  ∃ w', incrementFailedAttempts "1234590" (world_a 1) = (Returned 2, w').
Proof.
  destruct (incrementFailedAttempts_counts "1234590" (world_a 1))
    as [Hstored _].
  destruct (Hstored (slot_a 1)) as (w' & Hanswer & _); [reflexivity|].
  exists w'. exact Hanswer.
Defined.

Lemma sweep_deletes_exactly_the_expired_witness :
  ∃ w',
    cleanup_job 86402000 world_ab = (Returned tt, w') ∧
    select_slot "1234590" (slots w') = None ∧
    select_slot "7654321" (slots w') = Some slot_b.
Proof.
  destruct (sweep_deletes_exactly_the_expired 86402000 world_ab)
    as (w' & Hanswer & Hslots).
  - apply List.NoDup_cons; [intros [H|[]]; discriminate H|].
    apply List.NoDup_cons; [intros [] | apply List.NoDup_nil].
  - exists w'. split; [exact Hanswer|]. split.
    + apply (Hslots "1234590" (slot_a 0)); [reflexivity | cbn; lia].
    + apply (Hslots "7654321" slot_b); [reflexivity | cbn; lia].
Defined.

Lemma sweep_twice_witness :
  ∃ w',
    cleanup_job 86402000 world_ab = (Returned tt, w') ∧
    getExpiredSlots 86402000 w' = (Returned [], w').
Proof.
  destruct (sweep_twice 86402000 world_ab) as (w' & Hfirst & Hnone & _).
  exists w'. split; assumption.
Defined.

Lemma create_rejects_short_passwords_witness :
  String.length "日本語" = 9%nat ∧
  post_slot plain_hash tape_a "salt" 1000 "日本語" initial_world =
  (Returned (error_response 400 "Password must be at least 4 characters"),
   initial_world).
Proof.
  split; [reflexivity|].
  apply (create_rejects_short_passwords plain_hash tape_a "salt" 1000
           "日本語" initial_world).
  vm_compute. lia.
Defined.

Lemma create_then_access_witness :
  post_access plain_verify 5000 "1234590" "abcd"
    (set_slots [slot_a 0] initial_world) =
  (Returned (json_response (access_body (slot_a 0) [] None)),
   set_slots [slot_a 0] initial_world).
Proof.
  destruct (create_then_access plain_hash plain_verify tape_a "salt" 1000
              "abcd" initial_world (slot_a 0)
              (set_slots [slot_a 0] initial_world))
    as (_ & _ & Hopen).
  - vm_compute. lia.
  - reflexivity.
  - split; intros x [].
  - reflexivity.
  - apply (Hopen 5000). cbn. lia.
Defined.

Lemma generateSlotId_needs_seven_to_nine_witness :
  ∃ slotId tape', generateSlotId tape_a = Some (slotId, tape').
Proof.
  destruct (generateSlotId_needs_seven_to_nine plain_hash tape_a)
    as [Henough _].
  - unfold tape_a.
    repeat (constructor; [split; [unfold Qle | unfold Qlt]; cbn; lia|]).
    constructor.
  - destruct Henough as (slotId & tape' & Hgen & _); [cbn; lia|].
    exists slotId, tape'. exact Hgen.
Defined.

Lemma delete_then_not_found_witness :
  ∃ w',
    delete_slot plain_verify 2000 "1234590" "abcd" (world_a 0) =
      (Returned success_response, w') ∧
    select_slot "1234590" (slots w') = None.
Proof.
  destruct (delete_then_not_found plain_hash plain_verify no_trim 2000
              "1234590" "abcd" (slot_a 0) (world_a 0))
    as (w' & Hanswer & _ & Hgone & _); [reflexivity | cbn; lia | reflexivity |].
  exists w'. split; assumption.
Defined.

Lemma timer_breakdown_witness :
  ∃ hours minutes seconds,
    0 <= minutes < 60 ∧ 0 <= seconds < 60 ∧
    hours * 3600000 + minutes * 60000 + seconds * 1000 <= 86401000 - 1000.
Proof.
  destruct (timer_breakdown 86401000 1000 initial_timer)
    as (hours & minutes & seconds & _ & Hm & Hs & Hlow & _); [lia|].
  exists hours, minutes, seconds. repeat split; lia.
Defined.

Lemma timer_expiry_witness :
  timer_label (updateTimer 86401000 86401000 initial_timer) = "Expired".
Proof.
  destruct (timer_expiry 86401000 86401000 initial_timer) as [Hpast _].
  destruct Hpast as (_ & Hlabel & _); [lia | exact Hlabel].
Defined.


Lemma removeFile_at_index_witness :
  removeFile ["a"; "b"; "c"] 1 = ["a"; "c"].
Proof.
  destruct (removeFile_at_index ["a"; "b"; "c"] 1) as (Hshape & _).
  rewrite Hshape. reflexivity.
Defined.
